(** * openFDA API: the Elasticsearch query builder

    A shallow embedding of [api/faers/elasticsearch_query.js] and the
    properties of its exported functions [SupportedQueryString],
    [HandleDeprecatedClauses], [BuildSort] and [BuildQuery].

    JavaScript strings are sequences of UTF-16 code units; regular
    expressions without the [u] flag, [trim], [indexOf], [split] and
    [endsWith] all work on code units, so a string is a [list N] here. *)

From Stdlib Require Import ZArith NArith List String Ascii Bool Lia.
From stdpp Require Import gmap.
Import ListNotations.

Local Open Scope nat_scope.

(** ** Strings *)

Abbreviation char := N (only parsing).
Abbreviation jsstring := (list N) (only parsing).

Definition ch (a : ascii) : char := N_of_ascii a.
Definition js (s : string) : jsstring := List.map ch (list_ascii_of_string s).
Arguments ch _%_char : simpl never.
Arguments js _%_string : simpl never.

Definition truthy (s : jsstring) : bool := negb (Nat.eqb (length s) 0).

(** [a === b] on strings. *)
Fixpoint str_eqb (a b : jsstring) : bool :=
  match a, b with
  | [], [] => true
  | x :: a', y :: b' => N.eqb x y && str_eqb a' b'
  | _, _ => false
  end.

(** [array.includes(x)] and [array.indexOf(x) != -1] on arrays of strings. *)
Definition includes (l : list jsstring) (x : jsstring) : bool :=
  existsb (str_eqb x) l.

(** [s.startsWith(p)], returning what follows the prefix. *)
Fixpoint strip_prefix (p s : jsstring) : option jsstring :=
  match p, s with
  | [], _ => Some s
  | _ :: _, [] => None
  | a :: p', b :: s' => if N.eqb a b then strip_prefix p' s' else None
  end.

Definition startsWith (s p : jsstring) : bool :=
  match strip_prefix p s with Some _ => true | None => false end.

Definition endsWith (s p : jsstring) : bool := startsWith (rev s) (rev p).

(** [s.indexOf(p)], [None] standing for -1. *)
Fixpoint indexOf (s p : jsstring) : option nat :=
  if startsWith s p then Some 0
  else match s with
       | [] => None
       | _ :: t => option_map S (indexOf t p)
       end.

(** [s.split(d)] for a separator of one character. *)
Fixpoint split (d : char) (s : jsstring) : list jsstring :=
  match s with
  | [] => [[]]
  | c :: t =>
      if N.eqb c d then [] :: split d t
      else match split d t with
           | [] => [[c]]
           | x :: xs => (c :: x) :: xs
           end
  end.

(** The white space and line terminators that [trim] strips. *)
Definition is_space (c : char) : bool :=
  ((9 <=? c) && (c <=? 13) || (c =? 32) || (c =? 160) || (c =? 5760)
   || (8192 <=? c) && (c <=? 8202) || (c =? 8232) || (c =? 8233)
   || (c =? 8239) || (c =? 8287) || (c =? 12288) || (c =? 65279))%N.

Fixpoint trimStart (s : jsstring) : jsstring :=
  match s with
  | c :: t => if is_space c then trimStart t else s
  | [] => []
  end.

Definition trim (s : jsstring) : jsstring := rev (trimStart (rev (trimStart s))).

(** ** Regular expressions

    The two expressions of the module use anchors, literals, character
    classes under [+], [?] and one capture group.  Matching is the
    backtracking search of the language: [run] lists the states in which a
    match of the expression can end, in the order in which backtracking
    tries them, so the head of the list is the match that is found. *)

Inductive class_item : Type :=
| CChar (c : char)           (* one character *)
| CRange (lo hi : char)      (* lo-hi *)
| CWord.                     (* \w *)

Definition is_word (c : char) : bool :=
  ((ch "a" <=? c) && (c <=? ch "z") || (ch "A" <=? c) && (c <=? ch "Z")
   || (ch "0" <=? c) && (c <=? ch "9") || (c =? ch "_"))%N.

Definition in_item (c : char) (i : class_item) : bool :=
  match i with
  | CChar x => N.eqb c x
  | CRange lo hi => (lo <=? c)%N && (c <=? hi)%N
  | CWord => is_word c
  end.

Definition in_class (cls : list class_item) (c : char) : bool :=
  existsb (in_item c) cls.

Inductive regex : Type :=
| RBol                             (* ^ *)
| REol                             (* $ *)
| RLit (s : jsstring)              (* literal characters *)
| ROpt (r : regex)                 (* r?    (greedy) *)
| RPlus (cls : list class_item)    (* [..]+ (greedy) *)
| RCat (r1 r2 : regex)             (* r1 r2 *)
| RGroup (r : regex).              (* ( r ), the capture group $1 *)

Record mstate : Type := MState {
  m_pos : nat;                 (* index of the next character *)
  m_rest : jsstring;           (* the input from that index on *)
  m_cap : option jsstring      (* what group 1 captured *)
}.

(** [[..]+] at [s]: every non-empty prefix of class characters, longest first. *)
Fixpoint plus_run (cls : list class_item) (pos : nat) (s : jsstring)
    (cap : option jsstring) : list mstate :=
  match s with
  | c :: t =>
      if in_class cls c
      then plus_run cls (S pos) t cap ++ [MState (S pos) t cap]
      else []
  | [] => []
  end.

Fixpoint run (r : regex) (m : mstate) : list mstate :=
  match r with
  | RBol => if Nat.eqb (m_pos m) 0 then [m] else []
  | REol => match m_rest m with [] => [m] | _ :: _ => [] end
  | RLit l =>
      match strip_prefix l (m_rest m) with
      | Some t => [MState (m_pos m + length l) t (m_cap m)]
      | None => []
      end
  | ROpt r' => run r' m ++ [m]
  | RPlus cls => plus_run cls (m_pos m) (m_rest m) (m_cap m)
  | RCat r1 r2 => flat_map (run r2) (run r1 m)
  | RGroup r' =>
      List.map (fun m' => MState (m_pos m') (m_rest m')
                            (Some (firstn (m_pos m' - m_pos m) (m_rest m))))
               (run r' m)
  end.

(** A match attempt at one index of the input. *)
Definition match_at (r : regex) (pos : nat) (s : jsstring) : option mstate :=
  head (run r (MState pos s None)).

(** [RegExp.prototype.exec] from index [pos]: the first index with a match. *)
Fixpoint exec_from (r : regex) (pos : nat) (s : jsstring) : option (nat * mstate) :=
  match match_at r pos s with
  | Some m => Some (pos, m)
  | None =>
      match s with
      | [] => None
      | _ :: t => exec_from r (S pos) t
      end
  end.

(** [new RegExp(r).test(s)] *)
Definition regexp_test (r : regex) (s : jsstring) : bool :=
  match exec_from r 0 s with Some _ => true | None => false end.

(** ** The query-string validator *)

(** The double quote, character 34. *)
Definition DQUOTE : char := 34%N.

(** [SUPPORTED_QUERY_RE].  Once the escapes of the string literal are read,
    the expression is [^], one character class under [+], and [$].  The
    class lists, in this order: ampersand, 0-9, a-z, A-Z, at sign, percent,
    slash, apostrophe, comma, dot, underscore, colon, both parentheses, the
    double quote, both square brackets, both braces, hyphen, plus, greater
    than, less than, equals and the space. *)
Definition SUPPORTED_CLASS : list class_item :=
  [ CChar (ch "&"); CRange (ch "0") (ch "9"); CRange (ch "a") (ch "z");
    CRange (ch "A") (ch "Z"); CChar (ch "@"); CChar (ch "%"); CChar (ch "/");
    CChar (ch "'"); CChar (ch ","); CChar (ch "."); CChar (ch "_");
    CChar (ch ":"); CChar (ch "("); CChar (ch ")"); CChar DQUOTE;
    CChar (ch "["); CChar (ch "]"); CChar (ch "{"); CChar (ch "}");
    CChar (ch "-"); CChar (ch "+"); CChar (ch ">"); CChar (ch "<");
    CChar (ch "="); CChar (ch " ") ].

Definition SUPPORTED_QUERY_RE : regex :=
  RCat RBol (RCat (RPlus SUPPORTED_CLASS) REol).

Definition SupportedQueryString (query : jsstring) : bool :=
  regexp_test SUPPORTED_QUERY_RE query.

(** ** The rewriter of deprecated clauses *)

(** A replacement string: text and references to the capture group. *)
Inductive tpl_item : Type :=
| TText (s : jsstring)
| TGroup1.                   (* $1 *)

Definition expand (tpl : list tpl_item) (m : mstate) : jsstring :=
  flat_map (fun i => match i with
                     | TText s => s
                     | TGroup1 => match m_cap m with Some c => c | None => [] end
                     end) tpl.

(** [s.replace(r, tpl)] for a global expression [r]: the matches are found
    from left to right, each search starting where the previous match ended
    (one character further after an empty match); the text between the
    matches is copied.  Every round consumes a character, so the length of
    the input bounds the number of rounds. *)
Fixpoint replace_from (fuel : nat) (r : regex) (tpl : list tpl_item)
    (pos : nat) (s : jsstring) : jsstring :=
  match fuel with
  | O => s
  | S fuel' =>
      let copy :=
        match s with
        | [] => []
        | c :: t => c :: replace_from fuel' r tpl (S pos) t
        end in
      match match_at r pos s with
      | Some m =>
          expand tpl m ++
          (if Nat.eqb (m_pos m) pos then copy
           else replace_from fuel' r tpl (m_pos m) (m_rest m))
      | None => copy
      end
  end.

Definition replace_all (r : regex) (tpl : list tpl_item) (s : jsstring) : jsstring :=
  replace_from (S (length s)) r tpl 0 s.

(** The expression [_missing_:(Q?[\w.]+Q?)] with the global flag, [Q] being
    the double quote. *)
Definition MISSING_RE : regex :=
  RCat (RLit (js "_missing_:"))
       (RGroup (RCat (ROpt (RLit [DQUOTE]))
                     (RCat (RPlus [CWord; CChar (ch ".")])
                           (ROpt (RLit [DQUOTE]))))).

(** The replacement [(NOT (_exists_:$1))]. *)
Definition EXISTS_TPL : list tpl_item :=
  [TText (js "(NOT (_exists_:"); TGroup1; TText (js "))")].

Definition HandleDeprecatedClauses (search : jsstring) : jsstring :=
  replace_all MISSING_RE EXISTS_TPL search.

(** ** [escape-html]: the five characters that HTML gives a meaning to are
    replaced by entities. *)
Definition escape_char (c : char) : jsstring :=
  if N.eqb c DQUOTE then js "&quot;"
  else if N.eqb c (ch "&") then js "&amp;"
  else if N.eqb c (ch "'") then js "&#39;"
  else if N.eqb c (ch "<") then js "&lt;"
  else if N.eqb c (ch ">") then js "&gt;"
  else [c].

Definition escape (s : jsstring) : jsstring := flat_map escape_char s.

(** ** Constants of the module *)

Definition ELASTICSEARCH_QUERY_ERROR : jsstring := js "ElasticsearchQueryError".

Definition DATE_FIELDS : list jsstring := List.map js
  [ (* FAERS *)
    "drugstartdate"; "drugenddate"; "patient.patientdeath.patientdeathdate";
    "patientdeathdate"; "receiptdate"; "receivedate"; "transmissiondate";
    (* RES *)
    "report_date"; "recall_initiation_date"; "center_classification_date";
    "termination_date";
    (* SPL *)
    "effective_time";
    (* MAUDE *)
    "date_facility_aware"; "date_manufacturer_received"; "date_of_event";
    "date_received"; "date_added"; "date_changed"; "date_report";
    "date_report_to_fda"; "date_report_to_manufacturer";
    "date_returned_to_manufacturer"; "device_date_of_manufacture";
    "baseline_date_ceased_marketing"; "baseline_date_first_marketed";
    "expiration_date_of_device"; "device_date_of_manufacturer";
    (* R&L *)
    "products.created_date";
    (* Device Recall *)
    "event_date_terminated"; "event_date_initiated"; "event_date_created";
    "event_date_posted";
    (* Device PMA *)
    "decision_date"; "fed_reg_notice_date";
    (* Device UDI *)
    "package_discontinue_date"; "publish_date"; "public_version_date";
    "commercial_distribution_end_date"; "identifiers.package_discontinue_date";
    "package_discontinue_date";
    (* ADAE *)
    "original_receive_date"; "onset_date"; "first_exposure_date";
    "last_exposure_date"; "manufacturing_date"; "lot_expiration";
    "drug.first_exposure_date"; "drug.last_exposure_date";
    "drug.manufacturing_date"; "drug.lot_expiration";
    (* Food Events *)
    "date_created"; "date_started";
    (* NSDE *)
    "marketing_start_date"; "marketing_end_date"; "inactivation_date";
    "reactivation_date";
    (* NDC *)
    "marketing_start_date"; "marketing_end_date"; "listing_expiration_date";
    (* Drugs@FDA *)
    "submissions.submission_status_date"; "submissions.application_docs.date";
    (* Serology *)
    "date_performed";
    (* Tobacco Problem *)
    "date_submitted" ]%string.

Definition SORTABLE_FIELD_TYPES : list jsstring :=
  List.map js ["keyword"; "short"; "integer"; "byte"; "date"]%string.

(** ** The caller's parameters *)

(** A value of a parameter that is read as a number: [params.limit] arrives
    as a number or as the text of the HTTP query.  Numbers are the integers
    that the number type of the language holds exactly (up to 2^53 in
    absolute value); the arithmetic below is exact on them. *)
Inductive JsValue : Type :=
| JUndefined
| JNumber (z : Z)
| JString (s : jsstring).

Module params.
(** The object [params]; [None] is an absent ([undefined]) property. *)
Record t : Type := Make {
  search : option jsstring;
  count : option jsstring;
  sort : option jsstring;
  limit : JsValue;
  search_after : option jsstring
}.

Definition set_sort (v : jsstring) (p : t) : t :=
  Make (search p) (count p) (Some v) (limit p) (search_after p).
End params.

(** An optional string used as a condition: absent and empty are false. *)
Definition given (o : option jsstring) : bool :=
  match o with Some s => truthy s | None => false end.

(** The string read from a property that is known to be present. *)
Definition str (o : option jsstring) : jsstring :=
  match o with Some s => s | None => [] end.

(** ** The state of the module and of its collaborators *)

(** One element of [jsonpath.query(response, '$..mapping.*')]. *)
Inductive Mapping : Type :=
| MappingNull                              (* null: reading [.type] throws *)
| MappingObject (type : option jsstring).  (* its [type], when it has one *)

(** The outcome of [client.indices.getFieldMapping] followed by the
    [jsonpath] query on the response. *)
Inductive LookupOutcome : Type :=
| LookupThrows                             (* the request is rejected, or the
                                              response cannot be queried *)
| LookupMappings (mappings : list Mapping).

(** The search cluster as the module sees it: the outcome of the n-th
    field-mapping request (n counted from 0) for an index and a field. *)
Definition Client : Type := nat -> jsstring -> jsstring -> LookupOutcome.

Record JsError : Type := Error {
  name : jsstring;
  message : jsstring
}.

Record World : Type := MkWorld {
  w_params : params.t;                      (* the caller's [params] object *)
  fieldMappingCache : gmap (list N) bool;   (* the module's NodeCache *)
  w_requests : list (jsstring * jsstring);  (* (index, field) of the requests sent *)
  w_logged : nat                            (* calls of [log.error] *)
}.

Inductive completion (A : Type) : Type :=
| Return (a : A)
| Throw (e : JsError).
Arguments Return {A} a.
Arguments Throw {A} e.

(** Computations that read and write the world and may throw. *)
Definition M (A : Type) : Type := World -> completion A * World.

Definition ret {A} (a : A) : M A := fun w => (Return a, w).
Definition throw {A} (e : JsError) : M A := fun w => (Throw e, w).
Definition bind {A B} (m : M A) (k : A -> M B) : M B :=
  fun w => match m w with
           | (Return a, w') => k a w'
           | (Throw e, w') => (Throw e, w')
           end.

Notation "'let*' x ':=' m 'in' k" := (bind m (fun x => k))
  (at level 10, x name, m at level 100, k at level 200).
Notation "m ';;' k" := (bind m (fun _ => k))
  (at level 100, k at level 200, right associativity).

Definition get_params : M params.t := fun w => (Return (w_params w), w).

Definition set_params_sort (v : jsstring) : M unit := fun w =>
  (Return tt, MkWorld (params.set_sort v (w_params w)) (fieldMappingCache w)
                      (w_requests w) (w_logged w)).

Definition cache_has (key : jsstring) : M bool := fun w =>
  (Return (bool_decide (is_Some (fieldMappingCache w !! key))), w).

(** [fieldMappingCache.get(key)]; the module reads a key only after it has
    stored it, so the [undefined] of a missing key (false as a condition) is
    never seen. *)
Definition cache_get (key : jsstring) : M bool := fun w =>
  (Return (match fieldMappingCache w !! key with Some b => b | None => false end), w).

Definition cache_set (key : jsstring) (v : bool) : M unit := fun w =>
  (Return tt, MkWorld (w_params w) (<[key := v]> (fieldMappingCache w))
                      (w_requests w) (w_logged w)).

Definition cache_flushAll : M unit := fun w =>
  (Return tt, MkWorld (w_params w) ∅ (w_requests w) (w_logged w)).

Definition log_error : M unit := fun w =>
  (Return tt, MkWorld (w_params w) (fieldMappingCache w) (w_requests w) (S (w_logged w))).

Section Sortability.
Variable client : Client.

(** The request and the [jsonpath] query of [isFieldTypeAcceptableForSorting]. *)
Definition getFieldMapping (index field : jsstring) : M LookupOutcome := fun w =>
  (Return (client (length (w_requests w)) index field),
   MkWorld (w_params w) (fieldMappingCache w)
           (w_requests w ++ [(index, field)]) (w_logged w)).

Definition isFieldTypeAcceptableForSorting (field index : jsstring) : M bool :=
  let catch : M bool := (log_error ;; cache_flushAll ;; ret false) in
  let* outcome := getFieldMapping index field in
  match outcome with
  | LookupThrows => catch
  | LookupMappings [] => ret false
  | LookupMappings (MappingNull :: _) => catch
  | LookupMappings (MappingObject fieldType :: _) =>
      if given fieldType && includes SORTABLE_FIELD_TYPES (str fieldType)
      then ret true
      else ret false
  end.

Definition isSortableField (field : jsstring) (index : option jsstring) : M bool :=
  if given index && truthy field then
    let cacheKey := str index ++ js "." ++ field in
    let* has := cache_has cacheKey in
    (if negb has
     then (let* v := isFieldTypeAcceptableForSorting field (str index) in
           cache_set cacheKey v)
     else ret tt) ;;
    cache_get cacheKey
  else ret false.

(** [params.sort.split(':')[0]] *)
Definition sort_field (sort : jsstring) : jsstring :=
  match split (ch ":") sort with
  | f :: _ => f
  | [] => []
  end.

Definition BuildSort (index : option jsstring) : M jsstring :=
  let finish (sort : jsstring) : M jsstring :=
    ret (if truthy sort then sort ++ js ",_id" else js "_id") in
  let* p := get_params in
  if given (params.sort p) then
    set_params_sort (trim (str (params.sort p))) ;;
    let* p := get_params in
    let sort := str (params.sort p) in
    if negb (SupportedQueryString sort) then
      throw (Error ELASTICSEARCH_QUERY_ERROR
                   (js "Sort not supported: " ++ escape sort))
    else
      let reject : M jsstring :=
        throw (Error ELASTICSEARCH_QUERY_ERROR
                     (js "Sorting allowed by non-analyzed fields only: "
                      ++ escape (sort_field sort))) in
      match indexOf sort (js "exact") with
      | None =>
          match List.find (fun f => endsWith (sort_field sort) f) DATE_FIELDS with
          | None =>
              let* sortable := isSortableField (sort_field sort) index in
              if negb sortable then reject else finish sort
          | Some _ => finish sort
          end
      | Some _ => finish sort
      end
  else finish [].
End Sortability.

(** ** The cursor: [qs.parse] and [_.values]

    [qs.parse(str, {delimiter: ';'})] as far as the characters of [str] do
    not ask for more: the parts between delimiters (the first 1000 of them),
    each cut at its first equals sign into a key and a value, [+] decoded as
    a space, a repeated key collecting its values in an array, parts with an
    empty key and keys that name a property of [Object.prototype] left out.
    A key with a bracket group (a nested object or array) and a percent
    escape are constructs of the library that this model does not
    interpret; [qs_plain] recognises the strings without them.  Nor does it
    model the array limit of the library, which turns the array of a key
    repeated more than 20 times into an object. *)

Inductive QsValue : Type :=
| QString (s : jsstring)
| QArray (l : list jsstring).

Definition qs_plain (s : jsstring) : bool :=
  forallb (fun c => negb (N.eqb c (ch "[") || N.eqb c (ch "]") || N.eqb c (ch "%"))) s.

Definition qs_decode (s : jsstring) : jsstring :=
  List.map (fun c => if N.eqb c (ch "+") then ch " " else c) s.

(** A part [key=value]; without an equals sign the part is a key whose
    value is the empty string. *)
Definition parse_part (part : jsstring) : jsstring * jsstring :=
  match indexOf part (js "=") with
  | None => (qs_decode part, [])
  | Some pos => (qs_decode (firstn pos part), qs_decode (skipn (S pos) part))
  end.

(** [[].concat(a, b)] *)
Definition combine (a : QsValue) (b : jsstring) : QsValue :=
  match a with
  | QString x => QArray [x; b]
  | QArray l => QArray (l ++ [b])
  end.

(** [obj[key] = has(obj, key) ? combine(obj[key], val) : val], the
    properties kept in the order of their creation. *)
Fixpoint obj_add (obj : list (jsstring * QsValue)) (key val : jsstring)
    : list (jsstring * QsValue) :=
  match obj with
  | [] => [(key, QString val)]
  | (k, v) :: rest =>
      if str_eqb k key then (k, combine v val) :: rest
      else (k, v) :: obj_add rest key val
  end.

Definition parseValues (delimiter : char) (s : jsstring) : list (jsstring * QsValue) :=
  fold_left (fun obj part => let (k, v) := parse_part part in obj_add obj k v)
            (firstn 1000 (split delimiter s)) [].

(** The number that a key denotes when it is an array index: decimal
    digits without a leading zero, below 2^32 - 1. *)
Definition is_digit (c : char) : bool := ((ch "0" <=? c) && (c <=? ch "9"))%N.

Definition digits_value (s : jsstring) : N :=
  fold_left (fun acc c => (10 * acc + (c - ch "0"))%N) s 0%N.

Definition array_index (key : jsstring) : option N :=
  match key with
  | [] => None
  | c :: t =>
      if forallb is_digit key && (negb (N.eqb c (ch "0")) || Nat.eqb (length t) 0)
         && (length key <=? 10) && (digits_value key <=? 4294967294)%N
      then Some (digits_value key)
      else None
  end.

(** The order in which an object lists its own properties: the array
    indices in ascending order, then the other keys as they were created. *)
Fixpoint insert_index {V} (n : N) (kv : jsstring * V) (l : list (N * (jsstring * V)))
    : list (N * (jsstring * V)) :=
  match l with
  | [] => [(n, kv)]
  | (m, x) :: rest =>
      if (n <? m)%N then (n, kv) :: l else (m, x) :: insert_index n kv rest
  end.

Definition own_properties {V} (obj : list (jsstring * V)) : list (jsstring * V) :=
  let indexed :=
    fold_left (fun acc kv => match array_index (fst kv) with
                             | Some n => insert_index n kv acc
                             | None => acc
                             end) obj [] in
  List.map snd indexed
  ++ List.filter (fun kv => match array_index (fst kv) with
                            | Some _ => false
                            | None => true
                            end) obj.

(** The own properties of [Object.prototype]. *)
Definition OBJECT_PROTOTYPE : list jsstring := List.map js
  [ "constructor"; "__defineGetter__"; "__defineSetter__"; "hasOwnProperty";
    "__lookupGetter__"; "__lookupSetter__"; "isPrototypeOf";
    "propertyIsEnumerable"; "toString"; "valueOf"; "__proto__";
    "toLocaleString" ]%string.

Definition qs_parse (delimiter : char) (s : jsstring) : list (jsstring * QsValue) :=
  own_properties
    (List.filter (fun kv => truthy (fst kv) && negb (includes OBJECT_PROTOTYPE (fst kv)))
                 (own_properties (parseValues delimiter s))).

(** [_.values(obj)] *)
Definition values {K V} (obj : list (K * V)) : list V := List.map snd obj.

(** ** The query document *)

(** [parseInt(v)] of a parameter, [None] standing for NaN: leading white
    space, a sign, the prefix 0x or 0X for base 16, and the longest run of
    digits of the base. *)
Definition digit_of (radix : Z) (c : char) : option Z :=
  let d :=
    if is_digit c then Some (Z.of_N (c - ch "0"))
    else if ((ch "a" <=? c) && (c <=? ch "z"))%N then Some (Z.of_N (c - ch "a") + 10)%Z
    else if ((ch "A" <=? c) && (c <=? ch "Z"))%N then Some (Z.of_N (c - ch "A") + 10)%Z
    else None in
  match d with
  | Some v => if (v <? radix)%Z then Some v else None
  | None => None
  end.

Fixpoint parse_digits (radix : Z) (acc : option Z) (s : jsstring) : option Z :=
  match s with
  | [] => acc
  | c :: t =>
      match digit_of radix c with
      | Some d => parse_digits radix (Some (radix * match acc with Some a => a | None => 0 end + d)%Z) t
      | None => acc
      end
  end.

Definition parseInt_string (s : jsstring) : option Z :=
  let s := trimStart s in
  let (sign, s) :=
    match s with
    | c :: t => if N.eqb c (ch "-") then ((-1)%Z, t)
                else if N.eqb c (ch "+") then (1%Z, t) else (1%Z, s)
    | [] => (1%Z, s)
    end in
  let (radix, s) :=
    match s with
    | c :: x :: t => if N.eqb c (ch "0") && (N.eqb x (ch "x") || N.eqb x (ch "X"))
                     then (16%Z, t) else (10%Z, s)
    | _ => (10%Z, s)
    end in
  option_map (Z.mul sign) (parse_digits radix None s).

Definition parseInt (v : JsValue) : option Z :=
  match v with
  | JUndefined => None          (* the text "undefined" has no digits *)
  | JNumber z => Some z         (* the decimal text of z reads back as z *)
  | JString s => parseInt_string s
  end.

(** The clause built by [ejs.MatchAllQuery()] or [ejs.QueryStringQuery(q)]. *)
Inductive Query : Type :=
| MatchAllQuery
| QueryStringQuery (qstr : jsstring).

(** What the builders of elastic.js serialise: for a date histogram the
    properties set by [field], [interval], [order], [format] and
    [minDocCount]; for a terms aggregation those set by [field] and [size]. *)
Record date_histogram : Type := DateHistogram {
  dh_field : option jsstring;
  dh_interval : option jsstring;
  dh_order : option (jsstring * jsstring);
  dh_format : option jsstring;
  dh_min_doc_count : option Z
}.

Record terms : Type := Terms {
  t_field : option jsstring;
  t_size : option (option Z)       (* a number, [Some None] being NaN *)
}.

Inductive AggBody : Type :=
| AggDateHistogram (b : date_histogram)
| AggTerms (b : terms).

(** An aggregation under its name. *)
Definition Aggregation : Type := (jsstring * AggBody)%type.

Definition DateHistogramAggregation (nm : jsstring) : Aggregation :=
  (nm, AggDateHistogram (DateHistogram None None None None None)).

Definition TermsAggregation (nm : jsstring) : Aggregation :=
  (nm, AggTerms (Terms None None)).

Definition on_dh (f : date_histogram -> date_histogram) (a : Aggregation) : Aggregation :=
  match a with
  | (nm, AggDateHistogram b) => (nm, AggDateHistogram (f b))
  | _ => a
  end.

Definition on_terms (f : terms -> terms) (a : Aggregation) : Aggregation :=
  match a with
  | (nm, AggTerms b) => (nm, AggTerms (f b))
  | _ => a
  end.

(** [.field(f)] of either builder. *)
Definition field (f : jsstring) (a : Aggregation) : Aggregation :=
  match a with
  | (nm, AggDateHistogram b) =>
      (nm, AggDateHistogram (DateHistogram (Some f) (dh_interval b) (dh_order b)
                                           (dh_format b) (dh_min_doc_count b)))
  | (nm, AggTerms b) => (nm, AggTerms (Terms (Some f) (t_size b)))
  end.

Definition interval (i : jsstring) : Aggregation -> Aggregation :=
  on_dh (fun b => DateHistogram (dh_field b) (Some i) (dh_order b)
                                (dh_format b) (dh_min_doc_count b)).

(** [direction.toLowerCase()], as far as the comparison with asc and desc
    can tell: the letters A to Z. *)
Definition toLowerCase (s : jsstring) : jsstring :=
  List.map (fun c => if ((ch "A" <=? c) && (c <=? ch "Z"))%N then (c + 32)%N else c) s.

(** [.order(key, direction)]; a direction other than asc and desc is desc. *)
Definition order (key direction : jsstring) : Aggregation -> Aggregation :=
  on_dh (fun b =>
    let direction := toLowerCase direction in
    let d := if str_eqb direction (js "asc") || str_eqb direction (js "desc")
             then direction else js "desc" in
    DateHistogram (dh_field b) (dh_interval b) (Some (key, d))
                  (dh_format b) (dh_min_doc_count b)).

Definition format (f : jsstring) : Aggregation -> Aggregation :=
  on_dh (fun b => DateHistogram (dh_field b) (dh_interval b) (dh_order b)
                                (Some f) (dh_min_doc_count b)).

Definition minDocCount (n : Z) : Aggregation -> Aggregation :=
  on_dh (fun b => DateHistogram (dh_field b) (dh_interval b) (dh_order b)
                                (dh_format b) (Some n)).

Definition size (n : option Z) : Aggregation -> Aggregation :=
  on_terms (fun b => Terms (t_field b) (Some n)).

(** The body of the request, [q.toJSON()]: the properties [query], [aggs]
    and, once [AddSearchAfter] has run, [search_after]. *)
Record QueryDocument : Type := Document {
  query : option Query;
  aggs : list Aggregation;
  search_after : option (list QsValue)
}.

(** [ejs.Request()] *)
Definition Request : QueryDocument := Document None [] None.

(** [q.query(c)] *)
Definition set_query (c : Query) (q : QueryDocument) : QueryDocument :=
  Document (Some c) (aggs q) (search_after q).

(** [q.agg(a)]: [aggs] is an object keyed by the names of the aggregations. *)
Definition agg (a : Aggregation) (q : QueryDocument) : QueryDocument :=
  let updated := if includes (List.map fst (aggs q)) (fst a)
                 then List.map (fun b => if str_eqb (fst b) (fst a) then a else b) (aggs q)
                 else aggs q ++ [a] in
  Document (query q) updated (search_after q).

Definition AddSearchAfter (ejsBody : QueryDocument) (p : params.t) : QueryDocument :=
  if given (params.search_after p)
  then Document (query ejsBody) (aggs ejsBody)
                (Some (values (qs_parse (ch ";") (str (params.search_after p)))))
  else ejsBody.

Definition BuildQuery : M QueryDocument :=
  let* p := get_params in
  let q := Request in
  let* q :=
    if negb (given (params.search p)) && negb (given (params.count p)) then
      ret (set_query MatchAllQuery q)
    else
      let* q :=
        if given (params.search p) then
          if negb (SupportedQueryString (str (params.search p))) then
            throw (Error ELASTICSEARCH_QUERY_ERROR
                         (js "Search not supported: " ++ escape (str (params.search p))))
          else
            ret (set_query (QueryStringQuery
                              (HandleDeprecatedClauses (str (params.search p)))) q)
        else ret q in
      if given (params.count p) then
        if includes DATE_FIELDS (str (params.count p)) then
          ret (agg (minDocCount 1
                     (format (js "yyyyMMdd")
                        (order (js "_key") (js "asc")
                           (interval (js "day")
                              (field (str (params.count p))
                                 (DateHistogramAggregation (js "histogram"))))))) q)
        else
          let limit := option_map (fun n => (n + 1000)%Z) (parseInt (params.limit p)) in
          ret (agg (size limit (field (str (params.count p))
                                  (TermsAggregation (js "count")))) q)
      else ret q in
  let qJson := q in
  ret (AddSearchAfter qJson p).

(** ** The vocabulary of the specification *)

(** The character set that the specification documents for query strings:
    ASCII letters, digits, the listed punctuation and the space. *)
Definition is_letter (c : char) : bool :=
  ((ch "a" <=? c) && (c <=? ch "z") || (ch "A" <=? c) && (c <=? ch "Z"))%N.

Definition LISTED_PUNCTUATION : jsstring :=
  js "._:()" ++ [DQUOTE] ++ js "[]{}-+><=,%&/'".

Definition documented_char (c : char) : bool :=
  is_letter c || is_digit c || existsb (N.eqb c) LISTED_PUNCTUATION || N.eqb c (ch " ").

(** The documented set and the at sign, which the module lists for internal
    fields. *)
Definition supported_char (c : char) : bool :=
  documented_char c || N.eqb c (ch "@").

(** A field path in the shape that the rewriter expects: an optional double
    quote, one or more word characters or dots (as many as there are), and
    an optional double quote.  [field_path s] is the path at the head of [s]
    together with the text that follows it. *)
Definition is_path_char (c : char) : bool := is_word c || N.eqb c (ch ".").

Fixpoint span (p : char -> bool) (s : jsstring) : jsstring * jsstring :=
  match s with
  | c :: t => if p c then let (a, b) := span p t in (c :: a, b) else ([], s)
  | [] => ([], [])
  end.

Definition opt_quote (s : jsstring) : jsstring * jsstring :=
  match s with
  | c :: t => if N.eqb c DQUOTE then ([c], t) else ([], s)
  | [] => ([], [])
  end.

Definition field_path (s : jsstring) : option (jsstring * jsstring) :=
  let (q1, s1) := opt_quote s in
  let (w, s2) := span is_path_char s1 in
  let (q2, s3) := opt_quote s2 in
  match w with
  | [] => None
  | _ :: _ => Some (q1 ++ w ++ q2, s3)
  end.

(** The legacy operator and the expression that replaces it. *)
Definition MISSING : jsstring := js "_missing_:".
Definition not_exists (path : jsstring) : jsstring :=
  js "(NOT (_exists_:" ++ path ++ js "))".

(** The key under which the sortability of a field of an index is cached. *)
Definition cache_key (index field : jsstring) : jsstring := index ++ js "." ++ field.

(** The lookups that throw inside [isFieldTypeAcceptableForSorting]: the
    request is rejected or the response cannot be queried (a network error,
    a malformed response), or the first mapping is null. *)
Definition lookup_throws (o : LookupOutcome) : bool :=
  match o with
  | LookupThrows => true
  | LookupMappings (MappingNull :: _) => true
  | LookupMappings _ => false
  end.

(** The lookups that the specification counts as failed: those that throw
    and the response without a mapping. *)
Definition lookup_fails (o : LookupOutcome) : bool :=
  match o with
  | LookupMappings [] => true
  | _ => lookup_throws o
  end.

(** The world in which a caller hands [p] to the module: what the module
    has cached, requested and logged so far is kept. *)
Definition with_params (p : params.t) (w : World) : World :=
  MkWorld p (fieldMappingCache w) (w_requests w) (w_logged w).

(** A module that has not been used yet. *)
Definition fresh (p : params.t) : World := MkWorld p ∅ [] 0.

(** Parameters with only [sort], or nothing, set. *)
Definition no_params : params.t := params.Make None None None JUndefined None.
Definition sort_params (s : jsstring) : params.t :=
  params.Make None None (Some s) JUndefined None.

(** Clusters for the examples: one that always answers the same, one whose
    first request fails, and the answer that reports a mapping type. *)
Definition always (o : LookupOutcome) : Client := fun _ _ _ => o.

Definition fails_once_then (o : LookupOutcome) : Client :=
  fun n _ _ => match n with O => LookupThrows | S _ => o end.

Definition reports (type : jsstring) : LookupOutcome :=
  LookupMappings [MappingObject (Some type)].

(** The query-validation error that names a field that cannot be sorted by. *)
Definition sort_error (field : jsstring) : JsError :=
  Error ELASTICSEARCH_QUERY_ERROR
        (js "Sorting allowed by non-analyzed fields only: " ++ escape field).

(** The aggregations of a count request: the histogram by calendar day,
    ascending by bucket key, formatted [yyyyMMdd], without empty buckets;
    and the terms aggregation of a given size. *)
Definition daily_histogram (f : jsstring) : Aggregation :=
  (js "histogram",
   AggDateHistogram (DateHistogram (Some f) (Some (js "day"))
                                   (Some (js "_key", js "asc"))
                                   (Some (js "yyyyMMdd")) (Some 1%Z))).

Definition terms_of_size (f : jsstring) (n : option Z) : Aggregation :=
  (js "count", AggTerms (Terms (Some f) (Some n))).

(** The largest integer up to which the number type is exact, 2^53 - 1. *)
Definition MAX_SAFE_INTEGER : Z := 9007199254740991.

(** Parameters of a count request. *)
Definition count_params (c : jsstring) (l : JsValue) : params.t :=
  params.Make None (Some c) None l None.

(** The document without its cursor, as [BuildQuery] assembles it from
    parameters that pass the validation. *)
Definition assembled (p : params.t) : QueryDocument :=
  if negb (given (params.search p)) && negb (given (params.count p))
  then set_query MatchAllQuery Request
  else
    let q := if given (params.search p)
             then set_query (QueryStringQuery
                               (HandleDeprecatedClauses (str (params.search p)))) Request
             else Request in
    if given (params.count p) then
      if includes DATE_FIELDS (str (params.count p))
      then agg (daily_histogram (str (params.count p))) q
      else agg (terms_of_size (str (params.count p))
                  (option_map (fun n => (n + 1000)%Z) (parseInt (params.limit p)))) q
    else q.

(** The cursor read as the specification words it: the parts between the
    semicolons, each a key and a value, in the order of the parameters. *)
Definition cursor_pairs (cursor : jsstring) : list (jsstring * jsstring) :=
  List.map parse_part (split (ch ";") cursor).

Definition cursor_values (cursor : jsstring) : list QsValue :=
  List.map (fun kv => QString (snd kv)) (cursor_pairs cursor).

(** Parameters of a request for a further page. *)
Definition cursor_params (cursor : jsstring) : params.t :=
  params.Make None None None JUndefined (Some cursor).

Definition on_value {V W} (h : V -> W) (kv : jsstring * V) : jsstring * W :=
  (fst kv, h (snd kv)).

(** ** Further vocabulary *)

(** Whether the answer of the cluster makes a field sortable: the first
    mapping has a type, and the type is one of [SORTABLE_FIELD_TYPES]. *)
Definition sortable_type (o : LookupOutcome) : bool :=
  match o with
  | LookupMappings (MappingObject (Some type) :: _) =>
      includes SORTABLE_FIELD_TYPES type
  | _ => false
  end.

(** The characters that can open or close a tag or an attribute value in
    HTML. *)
Definition html_special (c : char) : bool :=
  N.eqb c DQUOTE || N.eqb c (ch "'") || N.eqb c (ch "<") || N.eqb c (ch ">").

(** No direction, ascending, descending. *)
Definition DIRECTIONS : list jsstring := [[]; js ":asc"; js ":desc"].

(** [params] with another cursor, and with another sort expression. *)
Definition with_cursor (c : option jsstring) (p : params.t) : params.t :=
  params.Make (params.search p) (params.count p) (params.sort p) (params.limit p) c.

Definition with_sort (s : option jsstring) (p : params.t) : params.t :=
  params.Make (params.search p) (params.count p) s (params.limit p)
              (params.search_after p).

(** A clause of the legacy operator starts at the head of [s]; and one
    starts somewhere in [s]. *)
Definition clause_at (s : jsstring) : bool :=
  match strip_prefix MISSING s with
  | Some t => match field_path t with Some _ => true | None => false end
  | None => false
  end.

Fixpoint has_clause (s : jsstring) : bool :=
  clause_at s || match s with [] => false | _ :: t => has_clause t end.

(** What [BuildSort] does with a given sort expression once it is trimmed
    and written back: the validation, the three ways of being sortable, and
    the result. *)
Definition sort_outcome (client : Client) (index : option jsstring)
    (sort : jsstring) (w1 : World) : completion jsstring * World :=
  if negb (SupportedQueryString sort) then
    (Throw (Error ELASTICSEARCH_QUERY_ERROR (js "Sort not supported: " ++ escape sort)),
     w1)
  else
    match indexOf sort (js "exact") with
    | Some _ => (Return (sort ++ js ",_id"), w1)
    | None =>
        match List.find (fun f => endsWith (sort_field sort) f) DATE_FIELDS with
        | Some _ => (Return (sort ++ js ",_id"), w1)
        | None =>
            let result := isSortableField client (sort_field sort) index w1 in
            match fst result with
            | Return true => (Return (sort ++ js ",_id"), snd result)
            | Return false => (Throw (sort_error (sort_field sort)), snd result)
            | Throw e => (Throw e, snd result)
            end
        end
    end.

(** A text starts with a field path: a word character or a dot, or a
    double quote followed by one. *)
Definition starts_path (t : jsstring) : bool :=
  match t with
  | c1 :: r =>
      if is_path_char c1 then true
      else if N.eqb c1 DQUOTE
           then match r with c2 :: _ => is_path_char c2 | [] => false end
           else false
  | [] => false
  end.

(** The characters of which field paths are made. *)
Definition pathish (c : char) : bool := is_path_char c || N.eqb c DQUOTE.

(** [params] with another limit. *)
Definition with_limit (l : JsValue) (p : params.t) : params.t :=
  params.Make (params.search p) (params.count p) (params.sort p) l
              (params.search_after p).

(** A key is an array index. *)
Definition is_index {V} (kv : jsstring * V) : bool :=
  match array_index (fst kv) with Some _ => true | None => false end.

(** No key occurs more than [n] times among [keys]. *)
Definition repeats_within (n : nat) (keys : list jsstring) : bool :=
  forallb (fun k => length (List.filter (str_eqb k) keys) <=? n) keys.

(** * Properties *)

(** ** Strings and regular expressions *)

Lemma in_class_high (cls : list class_item) (bound c : N) :
  (forall i, In i cls ->
     match i with
     | CChar x => (x < bound)%N
     | CRange _ hi => (hi < bound)%N
     | CWord => (ch "z" < bound)%N
     end) ->
  (bound <= c)%N -> in_class cls c = false.
Proof.
  intros Hb Hc. unfold in_class. apply not_true_is_false. intros H.
  apply existsb_exists in H. destruct H as [i [Hi Hin]].
  specialize (Hb i Hi). destruct i as [x | lo hi | ]; simpl in Hin.
  - apply N.eqb_eq in Hin. lia.
  - apply andb_true_iff in Hin. destruct Hin as [_ Hin]. apply N.leb_le in Hin. lia.
  - unfold is_word, ch in *. simpl in *.
    repeat match goal with
           | H : (_ || _) = true |- _ => apply orb_true_iff in H; destruct H as [H | H]
           | H : (_ && _) = true |- _ => apply andb_true_iff in H; destruct H as [? ?]
           | H : (_ <=? _)%N = true |- _ => apply N.leb_le in H
           | H : (_ =? _)%N = true |- _ => apply N.eqb_eq in H
           end; lia.
Qed.

(** Two predicates on characters that agree on a table of the first 128
    characters agree below 128. *)
Lemma agree_below_128 (f g : N -> bool) :
  forallb (fun n => Bool.eqb (f (N.of_nat n)) (g (N.of_nat n))) (seq 0 128) = true ->
  forall c, (c < 128)%N -> f c = g c.
Proof.
  intros H c Hc. rewrite forallb_forall in H.
  specialize (H (N.to_nat c)). rewrite N2Nat.id in H.
  apply Bool.eqb_prop, H, in_seq. lia.
Qed.

Lemma supported_class_char (c : N) : in_class SUPPORTED_CLASS c = supported_char c.
Proof.
  destruct (N.ltb_spec c 128) as [Hlt | Hge].
  - revert c Hlt. apply agree_below_128. vm_compute. reflexivity.
  - rewrite (in_class_high SUPPORTED_CLASS 128 c); [ | | exact Hge ].
    + symmetry. unfold supported_char, documented_char, is_letter, is_digit.
      unfold LISTED_PUNCTUATION, js, ch, DQUOTE. simpl.
      repeat match goal with
             | |- context [(?a <=? c)%N] => fail
             | |- context [(c <=? ?a)%N] =>
                 replace (c <=? a)%N with false by (symmetry; apply N.leb_gt; lia)
             | |- context [(c =? ?a)%N] =>
                 replace (c =? a)%N with false by (symmetry; apply N.eqb_neq; lia)
             end.
      rewrite ?andb_false_r. reflexivity.
    + intros i Hi. unfold SUPPORTED_CLASS in Hi. simpl in Hi.
      repeat (destruct Hi as [<- | Hi]; [ vm_compute; reflexivity | ]).
      destruct Hi.
Qed.

Lemma forallb_agree {A} (f g : A -> bool) (l : list A) :
  (forall x, f x = g x) -> forallb f l = forallb g l.
Proof.
  intros H. induction l as [ | x l IH]; simpl; [ reflexivity | ].
  rewrite H, IH. reflexivity.
Qed.

Lemma plus_run_then_eol (cls : list class_item) (s : jsstring) (pos : nat)
    (cap : option jsstring) :
  flat_map (run REol) (plus_run cls pos s cap) =
  if truthy s && forallb (in_class cls) s
  then [MState (pos + length s) [] cap] else [].
Proof.
  revert pos. induction s as [ | c t IH]; intros pos; [ reflexivity | ].
  simpl plus_run. simpl forallb. destruct (in_class cls c); [ | reflexivity ].
  rewrite flat_map_app, IH. simpl.
  destruct t as [ | d t']; simpl.
  - replace (pos + 1) with (S pos) by lia. reflexivity.
  - destruct (in_class cls d && forallb (in_class cls) t'); simpl.
    + replace (S (pos + S (length t'))) with (pos + S (S (length t'))) by lia.
      reflexivity.
    + reflexivity.
Qed.

Lemma exec_from_bol (r : regex) (s : jsstring) (pos : nat) :
  pos <> 0 -> exec_from (RCat RBol r) pos s = None.
Proof.
  revert pos. induction s as [ | c t IH]; intros pos Hpos;
    simpl; unfold match_at; simpl;
    destruct pos as [ | p]; try congruence; simpl.
  - reflexivity.
  - apply IH. discriminate.
Qed.

Lemma SupportedQueryString_forallb (s : jsstring) :
  SupportedQueryString s = truthy s && forallb supported_char s.
Proof.
  unfold SupportedQueryString, regexp_test, SUPPORTED_QUERY_RE.
  assert (Hm : match_at (RCat RBol (RCat (RPlus SUPPORTED_CLASS) REol)) 0 s =
               if truthy s && forallb supported_char s
               then Some (MState (length s) [] None) else None).
  { unfold match_at. simpl. rewrite app_nil_r, plus_run_then_eol.
    rewrite (forallb_agree (in_class SUPPORTED_CLASS) supported_char)
      by (intros c; apply supported_class_char).
    destruct (truthy s && forallb supported_char s); reflexivity. }
  destruct s as [ | c t].
  - reflexivity.
  - simpl exec_from. rewrite Hm.
    destruct (truthy (c :: t) && forallb supported_char (c :: t)); [ reflexivity | ].
    rewrite exec_from_bol by discriminate. reflexivity.
Qed.


(** ** C1: the query-string validator *)

(** C1, as stated, fails twice: the empty string consists only of documented
    characters and is refused, and the at sign is accepted although it is
    not in the documented set. *)
Lemma SupportedQueryString_documented_set_fails :
  ~ (forall s, Forall (fun c => documented_char c = true) s ->
               SupportedQueryString s = true)
  /\ ~ (forall s, Exists (fun c => documented_char c = false) s ->
                  SupportedQueryString s = false).
Proof.
  split.
  - intros H. specialize (H [] (List.Forall_nil _)). vm_compute in H. discriminate.
  - intros H. specialize (H (js "@")).
    assert (E : SupportedQueryString (js "@") = true) by (vm_compute; reflexivity).
    rewrite H in E; [ discriminate | ].
    constructor 1. vm_compute. reflexivity.
Qed.

(** C1 (amended): [SupportedQueryString] returns true for every non-empty
    string that consists only of ASCII letters, digits, the listed
    punctuation, the space and the at sign, and false for every string that
    contains a character outside that set. *)
Theorem SupportedQueryString_charset (s : jsstring) :
  (s <> [] -> Forall (fun c => supported_char c = true) s ->
   SupportedQueryString s = true)
  /\ (Exists (fun c => supported_char c = false) s ->
      SupportedQueryString s = false).
Proof.
  rewrite SupportedQueryString_forallb. split.
  - intros Hne Hall. apply andb_true_iff. split.
    + destruct s; [ congruence | reflexivity ].
    + apply forallb_forall. intros c Hc.
      rewrite List.Forall_forall in Hall. apply Hall, Hc.
  - intros Hex. apply andb_false_iff. right.
    apply List.Exists_exists in Hex. destruct Hex as [c [Hin Hc]].
    apply not_true_is_false. intros Hall.
    rewrite forallb_forall in Hall. rewrite (Hall c Hin) in Hc. discriminate.
Qed.

Lemma SupportedQueryString_charset_witness :
  SupportedQueryString (js "patient.drug.openfda.brand_name:(aspirin+ibuprofen)") = true
  /\ SupportedQueryString (js "a;b") = false.
Proof.
  split.
  - apply (SupportedQueryString_charset
             (js "patient.drug.openfda.brand_name:(aspirin+ibuprofen)")).
    + discriminate.
    + apply List.Forall_forall. intros c Hc. vm_compute in Hc.
      repeat (destruct Hc as [<- | Hc]; [ reflexivity | ]). destruct Hc.
  - apply (SupportedQueryString_charset (js "a;b")).
    constructor 2. constructor 1. reflexivity.
Defined.

(** ** C10: the rewriter of deprecated clauses *)

Lemma head_app_some {A} (l1 l2 : list A) (x : A) :
  List.head l1 = Some x -> List.head (l1 ++ l2) = Some x.
Proof. destruct l1; simpl; congruence. Qed.

Lemma opt_quote_app (s : jsstring) :
  s = fst (opt_quote s) ++ snd (opt_quote s).
Proof.
  destruct s as [ | c t]; [ reflexivity | ]. simpl.
  destruct (N.eqb c DQUOTE); reflexivity.
Qed.

Lemma span_app (p : N -> bool) (s : jsstring) :
  s = fst (span p s) ++ snd (span p s).
Proof.
  induction s as [ | c t IH]; [ reflexivity | ]. simpl.
  destruct (p c); [ | reflexivity ].
  destruct (span p t) as [a b]. simpl in *. congruence.
Qed.

Lemma field_path_app (s fp rest : jsstring) :
  field_path s = Some (fp, rest) -> s = fp ++ rest.
Proof.
  unfold field_path. intros H.
  pose proof (opt_quote_app s) as E1.
  destruct (opt_quote s) as [q1 s1]. simpl in E1.
  pose proof (span_app is_path_char s1) as E2.
  destruct (span is_path_char s1) as [w s2]. simpl in E2.
  pose proof (opt_quote_app s2) as E3.
  destruct (opt_quote s2) as [q2 s3]. simpl in E3.
  destruct w; [ discriminate | ]. injection H as <- <-.
  subst s s1 s2. rewrite <- !app_assoc. simpl. rewrite <- ?app_assoc. reflexivity.
Qed.

Lemma field_path_nonempty (s fp rest : jsstring) :
  field_path s = Some (fp, rest) -> fp <> [].
Proof.
  unfold field_path. intros H.
  destruct (opt_quote s) as [q1 s1].
  destruct (span is_path_char s1) as [w s2].
  destruct (opt_quote s2) as [q2 s3].
  destruct w; [ discriminate | ]. injection H as <- <-.
  destruct q1; discriminate.
Qed.

Lemma run_opt_quote (p : nat) (u : jsstring) (cap : option jsstring) :
  List.head (run (ROpt (RLit [DQUOTE])) (MState p u cap)) =
  Some (MState (p + length (fst (opt_quote u))) (snd (opt_quote u)) cap).
Proof.
  destruct u as [ | d u'].
  - simpl. f_equal. f_equal. lia.
  - unfold opt_quote. cbn [run m_rest m_pos m_cap strip_prefix].
    rewrite (N.eqb_sym d DQUOTE).
    destruct (N.eqb DQUOTE d); cbn; f_equal; f_equal; lia.
Qed.

(** The greedy class followed by the optional quote: backtracking finds the
    longest run first, and the optional quote never fails. *)
Lemma plus_then_quote (cls : list class_item) (s : jsstring) (pos : nat)
    (cap : option jsstring) :
  List.head (flat_map (run (ROpt (RLit [DQUOTE]))) (plus_run cls pos s cap)) =
  match span (in_class cls) s with
  | ([], _) => None
  | (w, r) =>
      Some (MState (pos + length w + length (fst (opt_quote r)))
                   (snd (opt_quote r)) cap)
  end.
Proof.
  revert pos. induction s as [ | c t IH]; intros pos; [ reflexivity | ].
  simpl plus_run. simpl span. destruct (in_class cls c); [ | reflexivity ].
  rewrite flat_map_app. specialize (IH (S pos)).
  destruct (span (in_class cls) t) as [w r] eqn:Hsp.
  destruct w as [ | d w'].
  - (* the run ends after c *)
    assert (Hnil : plus_run cls (S pos) t cap = []).
    { destruct t as [ | d t']; [ reflexivity | ]. simpl in *.
      destruct (in_class cls d); [ | reflexivity ].
      destruct (span (in_class cls) t'); discriminate. }
    rewrite Hnil.
    assert (r = t) as ->.
    { destruct t as [ | d t']; simpl in Hsp; [ congruence | ].
      destruct (in_class cls d); [ | congruence ].
      destruct (span (in_class cls) t'); discriminate. }
    cbn [flat_map app]. rewrite app_nil_r, run_opt_quote.
    f_equal. f_equal. simpl. lia.
  - erewrite head_app_some; [ | exact IH ].
    f_equal. f_equal. simpl. lia.
Qed.

Lemma plus_run_nil (cls : list class_item) (s : jsstring) (pos : nat)
    (cap : option jsstring) :
  fst (span (in_class cls) s) = [] -> plus_run cls pos s cap = [].
Proof.
  destruct s as [ | c t]; [ reflexivity | ]. simpl.
  destruct (in_class cls c); [ | reflexivity ].
  destruct (span (in_class cls) t); discriminate.
Qed.

Lemma path_class_char (c : N) :
  in_class [CWord; CChar (ch ".")] c = is_path_char c.
Proof. unfold in_class, is_path_char. simpl. rewrite orb_false_r. reflexivity. Qed.

Lemma span_agree (p q : N -> bool) (s : jsstring) :
  (forall c, p c = q c) -> span p s = span q s.
Proof.
  intros H. induction s as [ | c t IH]; [ reflexivity | ].
  simpl. rewrite H, IH. reflexivity.
Qed.

Lemma quote_not_path_char : is_path_char DQUOTE = false.
Proof. reflexivity. Qed.

Lemma run_cat (r1 r2 : regex) (m : mstate) :
  run (RCat r1 r2) m = flat_map (run r2) (run r1 m).
Proof. reflexivity. Qed.

Lemma run_opt (r : regex) (m : mstate) : run (ROpt r) m = run r m ++ [m].
Proof. reflexivity. Qed.

Lemma run_quote (pos : nat) (s : jsstring) (cap : option jsstring) :
  run (RLit [DQUOTE]) (MState pos s cap) =
  match s with
  | c :: t => if N.eqb c DQUOTE then [MState (pos + 1) t cap] else []
  | [] => []
  end.
Proof.
  destruct s as [ | c t]; [ reflexivity | ].
  cbn [run m_rest m_pos m_cap strip_prefix length]. rewrite (N.eqb_sym c DQUOTE).
  destruct (N.eqb DQUOTE c); reflexivity.
Qed.

(** The group of the expression, run at the text [t] that follows the
    operator: it matches exactly when [field_path] finds a path. *)
Lemma run_path_group (t : jsstring) (pos : nat) :
  List.head (run (RCat (ROpt (RLit [DQUOTE]))
                       (RCat (RPlus [CWord; CChar (ch ".")])
                             (ROpt (RLit [DQUOTE]))))
                 (MState pos t None)) =
  match field_path t with
  | Some (fp, rest) => Some (MState (pos + length fp) rest None)
  | None => None
  end.
Proof.
  set (tail := RCat (RPlus [CWord; CChar (ch ".")]) (ROpt (RLit [DQUOTE]))).
  assert (Hone : forall p u,
    List.head (run tail (MState p u None)) =
    match span is_path_char u with
    | ([], _) => None
    | (w, r) => Some (MState (p + length w + length (fst (opt_quote r)))
                             (snd (opt_quote r)) None)
    end).
  { intros p u. unfold tail. rewrite run_cat.
    change (run (RPlus [CWord; CChar (ch ".")]) (MState p u None))
      with (plus_run [CWord; CChar (ch ".")] p u None).
    rewrite plus_then_quote.
    rewrite (span_agree _ is_path_char) by apply path_class_char. reflexivity. }
  assert (Hnil : forall p u, fst (span is_path_char u) = [] ->
                             run tail (MState p u None) = []).
  { intros p u Hu. unfold tail. rewrite run_cat.
    change (run (RPlus [CWord; CChar (ch ".")]) (MState p u None))
      with (plus_run [CWord; CChar (ch ".")] p u None).
    rewrite plus_run_nil; [ reflexivity | ].
    rewrite (span_agree _ is_path_char) by apply path_class_char. exact Hu. }
  rewrite run_cat, run_opt, run_quote. unfold field_path.
  destruct t as [ | c t'].
  - reflexivity.
  - unfold opt_quote at 1. destruct (N.eqb c DQUOTE) eqn:Eq.
    + (* an opening quote *)
      apply N.eqb_eq in Eq. subst c. cbn [flat_map app].
      specialize (Hone (pos + 1) t'). pose proof (Hnil (pos + 1) t') as Hnil1.
      destruct (span is_path_char t') as [w r] eqn:Hsp.
      destruct w as [ | d w'].
      * (* no path after the quote: the attempt without the quote fails too *)
        rewrite Hnil1 by reflexivity.
        rewrite (Hnil pos (DQUOTE :: t')) by reflexivity.
        destruct (opt_quote r). reflexivity.
      * erewrite head_app_some; [ | exact Hone ].
        destruct (opt_quote r) as [q2 s3]. cbn [fst snd].
        f_equal. f_equal. cbn [length app]. rewrite ?length_app. cbn [length]. lia.
    + cbn [flat_map app]. rewrite app_nil_r, Hone.
      destruct (span is_path_char (c :: t')) as [w r].
      destruct w as [ | d w']; [ destruct (opt_quote r); reflexivity | ].
      destruct (opt_quote r) as [q2 s3]. cbn [fst snd].
      f_equal. f_equal. cbn [length app]. rewrite ?length_app. cbn [length]. lia.
Qed.

Lemma strip_prefix_some (p s t : jsstring) :
  strip_prefix p s = Some t -> s = p ++ t.
Proof.
  revert s. induction p as [ | a p IH]; intros s H; simpl in H.
  - injection H as ->. reflexivity.
  - destruct s as [ | b s]; [ discriminate | ].
    destruct (N.eqb a b) eqn:E; [ | discriminate ].
    apply N.eqb_eq in E. subst b. simpl. f_equal. apply IH, H.
Qed.

Lemma strip_prefix_app (p t : jsstring) : strip_prefix p (p ++ t) = Some t.
Proof.
  induction p as [ | a p IH]; simpl; [ destruct t; reflexivity | ].
  rewrite N.eqb_refl. exact IH.
Qed.

Lemma head_map {A B} (f : A -> B) (l : list A) :
  List.head (List.map f l) = option_map f (List.head l).
Proof. destruct l; reflexivity. Qed.

(** A match attempt of the expression at one index: the operator, then a
    field path, which the group captures. *)
Lemma match_at_missing (pos : nat) (s : jsstring) :
  match_at MISSING_RE pos s =
  match strip_prefix MISSING s with
  | Some t =>
      match field_path t with
      | Some (fp, rest) =>
          Some (MState (pos + length MISSING + length fp) rest (Some fp))
      | None => None
      end
  | None => None
  end.
Proof.
  unfold match_at, MISSING_RE. rewrite run_cat.
  cbn [run m_rest m_pos m_cap]. fold MISSING.
  destruct (strip_prefix MISSING s) as [t | ]; [ | reflexivity ].
  cbn [flat_map]. rewrite app_nil_r, head_map. cbn [m_rest m_pos m_cap].
  match goal with
  | |- context [List.head ?l] =>
      change l with (run (RCat (ROpt (RLit [DQUOTE]))
                               (RCat (RPlus [CWord; CChar (ch ".")])
                                     (ROpt (RLit [DQUOTE]))))
                         (MState (pos + length MISSING) t None))
  end.
  rewrite run_path_group.
  destruct (field_path t) as [[fp rest] | ] eqn:Hfp; [ | reflexivity ].
  cbn [option_map m_pos m_rest]. f_equal. f_equal. f_equal.
  rewrite (field_path_app _ _ _ Hfp).
  replace (pos + length MISSING + length fp - (pos + length MISSING)) with (length fp) by lia.
  rewrite firstn_app, Nat.sub_diag, firstn_all. simpl. apply app_nil_r.
Qed.

(** One round of the replacement. *)
Lemma replace_from_missing (fuel pos : nat) (s : jsstring) :
  replace_from (S fuel) MISSING_RE EXISTS_TPL pos s =
  let copy := match s with
              | [] => []
              | c :: t => c :: replace_from fuel MISSING_RE EXISTS_TPL (S pos) t
              end in
  match strip_prefix MISSING s with
  | Some t =>
      match field_path t with
      | Some (fp, rest) =>
          not_exists fp ++
          replace_from fuel MISSING_RE EXISTS_TPL (pos + length MISSING + length fp) rest
      | None => copy
      end
  | None => copy
  end.
Proof.
  cbn [replace_from]. rewrite match_at_missing. cbv zeta.
  destruct (strip_prefix MISSING s) as [t | ]; [ | reflexivity ].
  destruct (field_path t) as [[fp rest] | ]; [ | reflexivity ].
  cbn [m_pos m_rest].
  replace (Nat.eqb (pos + length MISSING + length fp) pos) with false
    by (symmetry; apply Nat.eqb_neq; simpl; lia).
  unfold expand, EXISTS_TPL, not_exists. cbn [flat_map m_cap].
  rewrite app_nil_r, <- !app_assoc. reflexivity.
Qed.

(** The length of the input is enough fuel, and the index at which the scan
    stands does not matter to this expression. *)
Lemma replace_from_fuel (fuel1 fuel2 pos1 pos2 : nat) (s : jsstring) :
  length s < fuel1 -> length s < fuel2 ->
  replace_from fuel1 MISSING_RE EXISTS_TPL pos1 s =
  replace_from fuel2 MISSING_RE EXISTS_TPL pos2 s.
Proof.
  revert fuel2 pos1 pos2 s.
  induction fuel1 as [ | f1 IH]; intros fuel2 pos1 pos2 s H1 H2; [ lia | ].
  destruct fuel2 as [ | f2]; [ lia | ].
  rewrite !replace_from_missing. cbv zeta.
  assert (Hcopy : match s with
                  | [] => []
                  | c :: t => c :: replace_from f1 MISSING_RE EXISTS_TPL (S pos1) t
                  end =
                  match s with
                  | [] => []
                  | c :: t => c :: replace_from f2 MISSING_RE EXISTS_TPL (S pos2) t
                  end).
  { destruct s as [ | c t]; [ reflexivity | ].
    f_equal. simpl in H1, H2. apply IH; lia. }
  destruct (strip_prefix MISSING s) as [t | ] eqn:Hp; [ | exact Hcopy ].
  destruct (field_path t) as [[fp rest] | ] eqn:Hfp; [ | exact Hcopy ].
  f_equal. apply strip_prefix_some in Hp. apply field_path_app in Hfp.
  subst s t. rewrite !length_app in H1, H2. simpl in H1, H2.
  apply IH; lia.
Qed.

Lemma HandleDeprecatedClauses_clause (s path rest : jsstring) :
  field_path s = Some (path, rest) ->
  HandleDeprecatedClauses (MISSING ++ s) =
  not_exists path ++ HandleDeprecatedClauses rest.
Proof.
  intros Hfp. unfold HandleDeprecatedClauses, replace_all.
  rewrite replace_from_missing. cbv zeta.
  rewrite strip_prefix_app, Hfp. f_equal.
  apply replace_from_fuel; [ | lia ].
  rewrite (field_path_app _ _ _ Hfp), !length_app. simpl. lia.
Qed.

Lemma HandleDeprecatedClauses_copy (c : N) (s : jsstring) :
  (forall t, strip_prefix MISSING (c :: s) = Some t -> field_path t = None) ->
  HandleDeprecatedClauses (c :: s) = c :: HandleDeprecatedClauses s.
Proof.
  intros Hno. unfold HandleDeprecatedClauses, replace_all.
  rewrite replace_from_missing. cbv zeta.
  assert (Hcopy : c :: replace_from (length (c :: s)) MISSING_RE EXISTS_TPL 1 s =
                  c :: replace_from (S (length s)) MISSING_RE EXISTS_TPL 0 s).
  { f_equal. apply replace_from_fuel; simpl; lia. }
  destruct (strip_prefix MISSING (c :: s)) as [t | ] eqn:Hp; [ | exact Hcopy ].
  rewrite (Hno t eq_refl). exact Hcopy.
Qed.


Lemma MISSING_chars : MISSING = [95; 109; 105; 115; 115; 105; 110; 103; 95; 58]%N.
Proof. reflexivity. Qed.





(** ** The sortability cache *)

(** Unfolds the operations of the monad and of the cache. *)
Ltac unfold_M :=
  unfold bind, cache_has, cache_get, cache_set, isFieldTypeAcceptableForSorting,
    getFieldMapping, bind, log_error, cache_flushAll, ret.

Section SortabilityFacts.
Variable client : Client.

(** A lookup that throws: the error is logged, the cache is emptied, and
    the caller then stores the [false] that comes back. *)
Lemma isSortableField_throws (field index : jsstring) (w : World) :
  truthy index = true -> truthy field = true ->
  fieldMappingCache w !! cache_key index field = None ->
  lookup_throws (client (length (w_requests w)) index field) = true ->
  isSortableField client field (Some index) w =
  (Return false,
   MkWorld (w_params w) {[ cache_key index field := false ]}
           (w_requests w ++ [(index, field)]) (S (w_logged w))).
Proof.
  intros Hi Hf Hc Ht. unfold isSortableField. cbn [given str]. rewrite Hi, Hf.
  cbn [andb]. fold (cache_key index field).
  unfold_M.
  rewrite Hc. rewrite bool_decide_eq_false_2 by (intros [? ?]; discriminate).
  cbn [negb].
  destruct (client (length (w_requests w)) index field) as [ | [ | [ | ty] ms]];
    try discriminate; cbn; rewrite lookup_insert_eq; reflexivity.
Qed.

(** A response without a mapping: [false] is stored, nothing is cleared. *)
Lemma isSortableField_no_mapping (field index : jsstring) (w : World) :
  truthy index = true -> truthy field = true ->
  fieldMappingCache w !! cache_key index field = None ->
  client (length (w_requests w)) index field = LookupMappings [] ->
  isSortableField client field (Some index) w =
  (Return false,
   MkWorld (w_params w) (<[ cache_key index field := false ]> (fieldMappingCache w))
           (w_requests w ++ [(index, field)]) (w_logged w)).
Proof.
  intros Hi Hf Hc Ht. unfold isSortableField. cbn [given str]. rewrite Hi, Hf.
  cbn [andb]. fold (cache_key index field).
  unfold_M.
  rewrite Hc. rewrite bool_decide_eq_false_2 by (intros [? ?]; discriminate).
  cbn [negb]. cbv beta. rewrite Ht. cbn. rewrite lookup_insert_eq. reflexivity.
Qed.

(** A cached key is answered from the cache: no request, no change. *)
Lemma isSortableField_cached (field index : jsstring) (w : World) (b : bool) :
  truthy index = true -> truthy field = true ->
  fieldMappingCache w !! cache_key index field = Some b ->
  isSortableField client field (Some index) w = (Return b, w).
Proof.
  intros Hi Hf Hc. unfold isSortableField. cbn [given str]. rewrite Hi, Hf.
  cbn [andb]. fold (cache_key index field).
  unfold bind, cache_has, cache_get, ret. rewrite Hc.
  rewrite bool_decide_eq_true_2 by eauto. cbn. rewrite Hc. reflexivity.
Qed.

(** [isSortableField] never throws. *)
Lemma isSortableField_returns (field : jsstring) (index : option jsstring) (w : World) :
  exists b, fst (isSortableField client field index w) = Return b.
Proof.
  unfold isSortableField. destruct (given index && truthy field); [ | eexists; reflexivity ].
  unfold_M.
  destruct (negb _); [ | eexists; reflexivity ].
  destruct (client _ _ _) as [ | [ | [ | ty] ms]];
    try destruct (given ty && includes SORTABLE_FIELD_TYPES (str ty));
    eexists; reflexivity.
Qed.

End SortabilityFacts.

(** ** C2: what a failed lookup leaves in the cache *)

(** C2 (the module at the failing input): the first request for the mapping
    of [brand_name] in [drug] fails and the cluster answers [keyword] from
    then on.  The failed call returns false and leaves under the key of the
    pair the entry [false]; the next call for the same pair is answered from
    that entry, so it returns false again and sends no second request. *)
Theorem isSortableField_stores_failed_lookup :
  let cluster := fails_once_then (reports (js "keyword")) in
  let first := isSortableField cluster (js "brand_name") (Some (js "drug"))
                 (fresh no_params) in
  let second := isSortableField cluster (js "brand_name") (Some (js "drug"))
                  (snd first) in
  fst first = Return false
  /\ fieldMappingCache (snd first) !! js "drug.brand_name" = Some false
  /\ fst second = Return false
  /\ w_requests (snd second) = [(js "drug", js "brand_name")].
Proof.
  cbv zeta.
  rewrite (isSortableField_throws _ (js "brand_name") (js "drug") (fresh no_params))
    by reflexivity.
  cbn [fst snd fieldMappingCache].
  change (cache_key (js "drug") (js "brand_name")) with (js "drug.brand_name").
  rewrite (isSortableField_cached _ (js "brand_name") (js "drug") _ false);
    [ | reflexivity | reflexivity | apply lookup_singleton_eq ].
  rewrite lookup_singleton_eq. repeat split; reflexivity.
Qed.

(** ** C3: failing closed *)

(** C3, as stated, fails for a missing mapping: the response without a
    mapping makes the field unsortable, but an unrelated entry stays in the
    cache. *)
Lemma isSortableField_missing_mapping_keeps_cache :
  ~ (forall (client : Client) (field index : jsstring) (w : World),
       truthy index = true -> truthy field = true ->
       fieldMappingCache w !! cache_key index field = None ->
       lookup_fails (client (length (w_requests w)) index field) = true ->
       fst (isSortableField client field (Some index) w) = Return false
       /\ forall k, is_Some (fieldMappingCache w !! k) ->
            fieldMappingCache (snd (isSortableField client field (Some index) w)) !! k
            = None).
Proof.
  intros H.
  pose (w := MkWorld no_params {[ js "drug.receivedate" := true ]} [] 0).
  assert (Hkey : fieldMappingCache w !! cache_key (js "drug") (js "brand_name") = None).
  { apply lookup_singleton_ne. vm_compute. discriminate. }
  destruct (H (always (LookupMappings [])) (js "brand_name") (js "drug") w
              eq_refl eq_refl Hkey eq_refl) as [_ Hclear].
  specialize (Hclear (js "drug.receivedate")).
  rewrite (isSortableField_no_mapping (always (LookupMappings [])) (js "brand_name")
             (js "drug") w eq_refl eq_refl Hkey eq_refl) in Hclear.
  cbn [snd fieldMappingCache w] in Hclear.
  rewrite lookup_insert_ne in Hclear by (vm_compute; discriminate).
  rewrite lookup_singleton_eq in Hclear.
  specialize (Hclear (ltac:(eauto))). discriminate.
Qed.

(** C3 (amended): when the lookup for a pair throws (a network error, a
    response that cannot be read), every previously cached entry is removed
    and [isSortableField] returns false; when the response has no mapping,
    [isSortableField] returns false as well and the previously cached
    entries are kept. *)
Theorem isSortableField_fails_closed (client : Client) (field index : jsstring)
    (w : World) :
  truthy index = true -> truthy field = true ->
  fieldMappingCache w !! cache_key index field = None ->
  let outcome := client (length (w_requests w)) index field in
  let result := isSortableField client field (Some index) w in
  (lookup_throws outcome = true ->
   fst result = Return false
   /\ forall k, is_Some (fieldMappingCache w !! k) ->
        fieldMappingCache (snd result) !! k = None)
  /\ (outcome = LookupMappings [] ->
      fst result = Return false
      /\ forall k, is_Some (fieldMappingCache w !! k) ->
           fieldMappingCache (snd result) !! k = fieldMappingCache w !! k).
Proof.
  intros Hi Hf Hc outcome result. subst outcome result. split; intros Ho.
  - rewrite (isSortableField_throws _ _ _ _ Hi Hf Hc Ho). cbn [fst snd fieldMappingCache].
    split; [ reflexivity | ]. intros k Hk.
    apply lookup_singleton_ne. intros <-. rewrite Hc in Hk. destruct Hk; discriminate.
  - rewrite (isSortableField_no_mapping _ _ _ _ Hi Hf Hc Ho). cbn [fst snd fieldMappingCache].
    split; [ reflexivity | ]. intros k Hk.
    apply lookup_insert_ne. intros <-. rewrite Hc in Hk. destruct Hk; discriminate.
Qed.

Lemma isSortableField_fails_closed_witness :
  let w := MkWorld no_params {[ js "drug.receivedate" := true ]} [] 0 in
  (fst (isSortableField (always LookupThrows) (js "brand_name") (Some (js "drug")) w)
   = Return false
   /\ fieldMappingCache
        (snd (isSortableField (always LookupThrows) (js "brand_name") (Some (js "drug")) w))
      !! js "drug.receivedate" = None)
  /\ fieldMappingCache
       (snd (isSortableField (always (LookupMappings [])) (js "brand_name")
               (Some (js "drug")) w))
     !! js "drug.receivedate" = Some true.
Proof.
  intros w.
  assert (Hkey : fieldMappingCache w !! cache_key (js "drug") (js "brand_name") = None).
  { apply lookup_singleton_ne. vm_compute. discriminate. }
  assert (Hold : is_Some (fieldMappingCache w !! js "drug.receivedate")).
  { exists true. apply lookup_singleton_eq. }
  split.
  - destruct (isSortableField_fails_closed (always LookupThrows) (js "brand_name")
                (js "drug") w eq_refl eq_refl Hkey) as [Hthrows _].
    destruct (Hthrows eq_refl) as [Hr Hclear].
    split; [ exact Hr | exact (Hclear _ Hold) ].
  - destruct (isSortableField_fails_closed (always (LookupMappings [])) (js "brand_name")
                (js "drug") w eq_refl eq_refl Hkey) as [_ Hnone].
    destruct (Hnone eq_refl) as [_ Hkeep].
    rewrite (Hkeep _ Hold). apply lookup_singleton_eq.
Defined.

(** ** The sort builder *)

Lemma SupportedQueryString_truthy (s : jsstring) :
  SupportedQueryString s = true -> truthy s = true.
Proof.
  rewrite SupportedQueryString_forallb. intros H.
  apply andb_true_iff in H. apply H.
Qed.

Lemma isSortableField_params (client : Client) (field : jsstring)
    (index : option jsstring) (w : World) :
  w_params (snd (isSortableField client field index w)) = w_params w.
Proof.
  unfold isSortableField. destruct (given index && truthy field); [ | reflexivity ].
  unfold_M.
  destruct (negb _); [ | reflexivity ].
  destruct (client _ _ _) as [ | [ | [ | ty] ms]];
    try destruct (given ty && includes SORTABLE_FIELD_TYPES (str ty));
    reflexivity.
Qed.

(** [BuildSort], one decision after the other. *)
Lemma BuildSort_unfold (client : Client) (index : option jsstring) (w : World) :
  BuildSort client index w =
  if given (params.sort (w_params w)) then
    let sort := trim (str (params.sort (w_params w))) in
    let w1 := with_params (params.set_sort sort (w_params w)) w in
    if negb (SupportedQueryString sort) then
      (Throw (Error ELASTICSEARCH_QUERY_ERROR (js "Sort not supported: " ++ escape sort)),
       w1)
    else
      match indexOf sort (js "exact") with
      | Some _ => (Return (sort ++ js ",_id"), w1)
      | None =>
          match List.find (fun f => endsWith (sort_field sort) f) DATE_FIELDS with
          | Some _ => (Return (sort ++ js ",_id"), w1)
          | None =>
              let result := isSortableField client (sort_field sort) index w1 in
              match fst result with
              | Return true => (Return (sort ++ js ",_id"), snd result)
              | Return false => (Throw (sort_error (sort_field sort)), snd result)
              | Throw e => (Throw e, snd result)
              end
          end
      end
  else (Return (js "_id"), w).
Proof.
  unfold BuildSort, bind, get_params, set_params_sort, ret, throw, with_params.
  destruct (given (params.sort (w_params w))); [ | reflexivity ].
  cbn [w_params params.sort params.set_sort str]. cbv zeta.
  destruct (SupportedQueryString (trim (str (params.sort (w_params w))))) eqn:Hs;
    [ | reflexivity ].
  rewrite (SupportedQueryString_truthy _ Hs). cbn [negb].
  destruct (indexOf _ (js "exact")); [ reflexivity | ].
  destruct (List.find _ DATE_FIELDS); [ reflexivity | ].
  destruct (isSortableField client _ index _) as [[[ | ] | e] w2]; reflexivity.
Qed.



Lemma split_head_prefix (d : N) (s : jsstring) :
  exists x xs r, split d s = x :: xs /\ s = x ++ r.
Proof.
  induction s as [ | c t IH].
  - exists [], [], []. split; reflexivity.
  - cbn [split]. destruct (N.eqb c d).
    + exists [], (split d t), (c :: t). split; reflexivity.
    + destruct IH as (x & xs & r & Hs & Ht). rewrite Hs.
      exists (c :: x), xs, r. split; [ reflexivity | ]. rewrite Ht at 1. reflexivity.
Qed.

Lemma sort_field_prefix (sort : jsstring) :
  exists r, sort = sort_field sort ++ r.
Proof.
  unfold sort_field.
  destruct (split_head_prefix (ch ":") sort) as (x & xs & r & Hs & Ht).
  rewrite Hs. exists r. exact Ht.
Qed.


(** ** C4: which sort fields are accepted *)




(** ** C5: what the builders write into [params] *)

Lemma BuildQuery_world (w : World) : snd (BuildQuery w) = w.
Proof.
  unfold BuildQuery, bind, get_params, ret, throw.
  destruct (negb (given (params.search (w_params w)))
            && negb (given (params.count (w_params w)))); [ reflexivity | ].
  destruct (given (params.search (w_params w)));
    [ destruct (negb (SupportedQueryString (str (params.search (w_params w)))));
      [ reflexivity | ] | ];
    destruct (given (params.count (w_params w)));
    try destruct (includes DATE_FIELDS (str (params.count (w_params w))));
    reflexivity.
Qed.

Lemma BuildSort_params (client : Client) (index : option jsstring) (w : World) :
  w_params (snd (BuildSort client index w)) =
  if given (params.sort (w_params w))
  then params.set_sort (trim (str (params.sort (w_params w)))) (w_params w)
  else w_params w.
Proof.
  rewrite BuildSort_unfold.
  destruct (given (params.sort (w_params w))); [ | reflexivity ]. cbv zeta.
  destruct (negb (SupportedQueryString _)); [ reflexivity | ].
  destruct (indexOf _ (js "exact")); [ reflexivity | ].
  destruct (List.find _ DATE_FIELDS); [ reflexivity | ].
  pose proof (isSortableField_params client
                (sort_field (trim (str (params.sort (w_params w))))) index
                (with_params (params.set_sort (trim (str (params.sort (w_params w))))
                                              (w_params w)) w)) as Hp.
  destruct (isSortableField client _ index _) as [[[ | ] | e] w2];
    cbn [fst snd] in *; exact Hp.
Qed.

(** C5, as stated, fails for [BuildSort]: a sort expression with white
    space around it is written back trimmed, so [params.sort] differs after
    the call. *)
Lemma BuildSort_trims_params_sort :
  let w := fresh (sort_params (js " receivedate:desc ")) in
  params.sort (w_params w) = Some (js " receivedate:desc ")
  /\ params.sort (w_params (snd (BuildSort (always LookupThrows) None w)))
     = Some (js "receivedate:desc").
Proof. vm_compute. split; reflexivity. Qed.

(** C5 (amended): [BuildQuery] never changes [params] (nor anything else of
    the world); [BuildSort] leaves [search], [count], [limit] and
    [search_after] as they were and replaces a given [sort] by its trimmed
    text, an absent or empty [sort] staying as it was. *)
Theorem builders_params_frame (client : Client) (index : option jsstring)
    (w : World) :
  snd (BuildQuery w) = w
  /\ let p := w_params w in
     let p' := w_params (snd (BuildSort client index w)) in
     params.search p' = params.search p
     /\ params.count p' = params.count p
     /\ params.limit p' = params.limit p
     /\ params.search_after p' = params.search_after p
     /\ params.sort p' =
        if given (params.sort p) then Some (trim (str (params.sort p)))
        else params.sort p.
Proof.
  split; [ apply BuildQuery_world | ]. cbv zeta. rewrite BuildSort_params.
  destruct (given (params.sort (w_params w))); repeat split; reflexivity.
Qed.

(** ** C8: the tiebreaker *)

(** C8, as stated, fails for a sort expression with white space around it:
    the result is the trimmed expression with the tiebreaker, not the given
    one. *)
Lemma BuildSort_result_is_trimmed :
  fst (BuildSort (always LookupThrows) None
         (fresh (sort_params (js " receivedate:desc"))))
  = Return (js "receivedate:desc,_id")
  /\ js "receivedate:desc,_id" <> js " receivedate:desc" ++ js ",_id".
Proof. split; [ vm_compute; reflexivity | vm_compute; discriminate ]. Qed.

(** C8 (amended): [BuildSort] with no (or an empty) [sort] returns [_id]
    and changes nothing; with [patientdeathdate:desc] it returns
    [patientdeathdate:desc,_id] without a metadata lookup, the cache and the
    list of requests being as before; and every successful result for a
    given sort expression is that expression, trimmed of the white space
    around it, with [,_id] appended. *)
Theorem BuildSort_appends_tiebreaker (client : Client) (index : option jsstring)
    (w : World) :
  (given (params.sort (w_params w)) = false ->
   BuildSort client index w = (Return (js "_id"), w))
  /\ (params.sort (w_params w) = Some (js "patientdeathdate:desc") ->
      fst (BuildSort client index w) = Return (js "patientdeathdate:desc,_id")
      /\ w_requests (snd (BuildSort client index w)) = w_requests w
      /\ fieldMappingCache (snd (BuildSort client index w)) = fieldMappingCache w)
  /\ (forall s r,
        params.sort (w_params w) = Some s -> s <> [] ->
        fst (BuildSort client index w) = Return r ->
        r = trim s ++ js ",_id").
Proof.
  rewrite BuildSort_unfold. split; [ | split ].
  - intros ->. reflexivity.
  - intros ->. vm_compute. repeat split; reflexivity.
  - intros s r Hs Hne. rewrite Hs. cbn [given str].
    replace (truthy s) with true by (destruct s; [ congruence | reflexivity ]).
    cbv zeta. destruct (negb (SupportedQueryString (trim s))); [ discriminate | ].
    destruct (indexOf (trim s) (js "exact")); [ cbn; congruence | ].
    destruct (List.find _ DATE_FIELDS); [ cbn; congruence | ].
    destruct (fst (isSortableField client _ index _)) as [[ | ] | e];
      cbn; congruence.
Qed.

Lemma BuildSort_appends_tiebreaker_witness :
  BuildSort (always LookupThrows) (Some (js "drug")) (fresh no_params)
  = (Return (js "_id"), fresh no_params)
  /\ fst (BuildSort (always LookupThrows) (Some (js "drug"))
            (fresh (sort_params (js "patientdeathdate:desc"))))
     = Return (js "patientdeathdate:desc,_id")
  /\ js "brand_name:asc,_id" = trim (js "brand_name:asc ") ++ js ",_id".
Proof.
  split; [ | split ].
  - apply (BuildSort_appends_tiebreaker (always LookupThrows) (Some (js "drug"))
             (fresh no_params)). reflexivity.
  - apply (BuildSort_appends_tiebreaker (always LookupThrows) (Some (js "drug"))
             (fresh (sort_params (js "patientdeathdate:desc")))). reflexivity.
  - apply (BuildSort_appends_tiebreaker (always (reports (js "keyword")))
             (Some (js "drug")) (fresh (sort_params (js "brand_name:asc ")))
             ).
    + reflexivity.
    + discriminate.
    + reflexivity.
Defined.

(** ** The query builder *)

Lemma str_eqb_eq (a b : jsstring) : str_eqb a b = true <-> a = b.
Proof.
  revert b. induction a as [ | x a IH]; intros [ | y b]; simpl;
    try (split; [ discriminate | discriminate ]); try (split; reflexivity).
  rewrite andb_true_iff, N.eqb_eq, IH. split.
  - intros [-> ->]. reflexivity.
  - intros H. injection H as -> ->. split; reflexivity.
Qed.

Lemma includes_In (l : list jsstring) (x : jsstring) :
  includes l x = true <-> In x l.
Proof.
  unfold includes. rewrite existsb_exists. split.
  - intros [y [Hy E]]. apply str_eqb_eq in E. subst y. exact Hy.
  - intros H. exists x. split; [ exact H | apply str_eqb_eq; reflexivity ].
Qed.

(** [BuildQuery] throws exactly when a given search string fails the
    validation; otherwise it returns the assembled document with the cursor. *)
Lemma BuildQuery_unfold (w : World) :
  fst (BuildQuery w) =
  let p := w_params w in
  if given (params.search p) && negb (SupportedQueryString (str (params.search p)))
  then Throw (Error ELASTICSEARCH_QUERY_ERROR
                    (js "Search not supported: " ++ escape (str (params.search p))))
  else Return (AddSearchAfter (assembled p) p).
Proof.
  unfold BuildQuery, assembled, bind, get_params, ret, throw. cbv zeta.
  destruct (given (params.search (w_params w))) eqn:Hs; cbn [negb andb].
  - destruct (SupportedQueryString (str (params.search (w_params w)))); cbn [negb];
      [ | reflexivity ].
    destruct (given (params.count (w_params w)));
      [ destruct (includes DATE_FIELDS (str (params.count (w_params w)))) | ];
      reflexivity.
  - destruct (given (params.count (w_params w))); cbn [negb];
      [ destruct (includes DATE_FIELDS (str (params.count (w_params w)))) | ];
      reflexivity.
Qed.

Lemma AddSearchAfter_aggs (q : QueryDocument) (p : params.t) :
  aggs (AddSearchAfter q p) = aggs q.
Proof. unfold AddSearchAfter. destruct (given (params.search_after p)); reflexivity. Qed.

Lemma AddSearchAfter_query (q : QueryDocument) (p : params.t) :
  query (AddSearchAfter q p) = query q.
Proof. unfold AddSearchAfter. destruct (given (params.search_after p)); reflexivity. Qed.

Lemma assembled_aggs (p : params.t) :
  aggs (assembled p) =
  if given (params.count p) then
    if includes DATE_FIELDS (str (params.count p))
    then [daily_histogram (str (params.count p))]
    else [terms_of_size (str (params.count p))
            (option_map (fun n => (n + 1000)%Z) (parseInt (params.limit p)))]
  else [].
Proof.
  unfold assembled.
  destruct (given (params.search p)), (given (params.count p)); cbn [negb andb];
    try reflexivity;
    destruct (includes DATE_FIELDS (str (params.count p))); reflexivity.
Qed.

(** ** C7: the aggregation of a count request *)

(** C7: for parameters with [count] set, every document that [BuildQuery]
    returns has, when the count field is a member of the date-field set,
    the date histogram on that field by calendar day, ascending by bucket
    key, formatted [yyyyMMdd] and without empty buckets, and otherwise, for
    a positive integer limit L (in the range where numbers are exact), the
    terms aggregation on the field of size L + 1000; limit 10 gives 1010.
    [BuildQuery] does return a document unless a search string is given and
    refused. *)
Theorem BuildQuery_count_aggregation (w : World) (c : jsstring) :
  params.count (w_params w) = Some c -> c <> [] ->
  (given (params.search (w_params w)) = false
   \/ SupportedQueryString (str (params.search (w_params w))) = true ->
   exists d, fst (BuildQuery w) = Return d)
  /\ (forall d, fst (BuildQuery w) = Return d ->
      (In c DATE_FIELDS -> aggs d = [daily_histogram c])
      /\ (~ In c DATE_FIELDS ->
          forall L, parseInt (params.limit (w_params w)) = Some L ->
                    (0 < L)%Z -> (L + 1000 <= MAX_SAFE_INTEGER)%Z ->
                    aggs d = [terms_of_size c (Some (L + 1000)%Z)]))
  /\ fst (BuildQuery (fresh (count_params (js "report_date") (JNumber 10)))) =
     Return (Document None [daily_histogram (js "report_date")] None)
  /\ fst (BuildQuery (fresh (count_params (js "brand_name") (JNumber 10)))) =
     Return (Document None [terms_of_size (js "brand_name") (Some 1010%Z)] None).
Proof.
  intros Hc Hne.
  assert (Hgiven : given (params.count (w_params w)) = true).
  { rewrite Hc. destruct c; [ congruence | reflexivity ]. }
  rewrite BuildQuery_unfold. cbv zeta.
  split; [ | split; [ | split; vm_compute; reflexivity ] ].
  - intros [Hs | Hs]; rewrite Hs; [ | rewrite andb_false_r ]; eexists; reflexivity.
  - intros d Hd.
    destruct (given (params.search (w_params w))
              && negb (SupportedQueryString (str (params.search (w_params w)))));
      [ discriminate | ].
    injection Hd as <-. rewrite AddSearchAfter_aggs, assembled_aggs, Hgiven, Hc.
    cbn [str]. split.
    + intros Hin. apply includes_In in Hin. rewrite Hin. reflexivity.
    + intros Hnot L HL _ _.
      destruct (includes DATE_FIELDS c) eqn:E;
        [ apply includes_In in E; contradiction | ].
      rewrite HL. reflexivity.
Qed.

Lemma BuildQuery_count_aggregation_witness :
  (exists d,
     fst (BuildQuery (fresh (count_params (js "receivedate") JUndefined))) = Return d
     /\ aggs d = [daily_histogram (js "receivedate")])
  /\ (exists d,
        fst (BuildQuery (fresh (count_params (js "openfda.brand_name.exact")
                                  (JString (js "25"))))) = Return d
        /\ aggs d = [terms_of_size (js "openfda.brand_name.exact") (Some 1025%Z)]).
Proof.
  split.
  - destruct (BuildQuery_count_aggregation
                (fresh (count_params (js "receivedate") JUndefined)) (js "receivedate")
                eq_refl ltac:(discriminate)) as (Hret & Hagg & _).
    destruct (Hret (or_introl eq_refl)) as [d Hd].
    exists d. split; [ exact Hd | ].
    apply (Hagg d Hd), includes_In. reflexivity.
  - destruct (BuildQuery_count_aggregation
                (fresh (count_params (js "openfda.brand_name.exact") (JString (js "25"))))
                (js "openfda.brand_name.exact")
                eq_refl ltac:(discriminate)) as (Hret & Hagg & _).
    destruct (Hret (or_introl eq_refl)) as [d Hd].
    exists d. split; [ exact Hd | ].
    apply (Hagg d Hd) with (L := 25%Z).
    + intros Hin. apply includes_In in Hin. vm_compute in Hin. discriminate.
    + reflexivity.
    + reflexivity.
    + vm_compute. discriminate.
Defined.

(** ** The cursor *)

Lemma obj_add_fresh (obj : list (jsstring * QsValue)) (k v : jsstring) :
  ~ In k (List.map fst obj) -> obj_add obj k v = obj ++ [(k, QString v)].
Proof.
  induction obj as [ | [k' v'] obj IH]; intros Hk; [ reflexivity | ].
  cbn [obj_add]. destruct (str_eqb k' k) eqn:E.
  - apply str_eqb_eq in E. subst k'. exfalso. apply Hk. left. reflexivity.
  - cbn [app]. f_equal. apply IH. intros Hin. apply Hk. right. exact Hin.
Qed.

(** Distinct keys: every part creates its own property. *)
Lemma fold_obj_add (parts : list jsstring) (acc : list (jsstring * QsValue)) :
  List.NoDup (List.map fst acc ++ List.map fst (List.map parse_part parts)) ->
  fold_left (fun obj part => let (k, v) := parse_part part in obj_add obj k v)
            parts acc =
  acc ++ List.map (on_value QString) (List.map parse_part parts).
Proof.
  revert acc. induction parts as [ | part parts IH]; intros acc Hnd.
  - cbn. rewrite app_nil_r. reflexivity.
  - cbn [fold_left List.map] in *. destruct (parse_part part) as [k v] eqn:Hp.
    cbn [fst] in Hnd.
    rewrite obj_add_fresh.
    + rewrite IH.
      * rewrite <- app_assoc. reflexivity.
      * rewrite List.map_app, <- app_assoc. cbn [List.map fst app]. exact Hnd.
    + intros Hin. apply List.NoDup_remove_2 in Hnd. apply Hnd.
      apply in_or_app. left. exact Hin.
Qed.

Lemma insert_index_on_value {V W} (h : V -> W) (n : N) (kv : jsstring * V)
    (acc : list (N * (jsstring * V))) :
  insert_index n (on_value h kv)
    (List.map (fun x => (fst x, on_value h (snd x))) acc) =
  List.map (fun x => (fst x, on_value h (snd x))) (insert_index n kv acc).
Proof.
  induction acc as [ | [m x] acc IH]; [ reflexivity | ].
  cbn [List.map insert_index fst snd]. destruct (n <? m)%N; [ reflexivity | ].
  cbn [List.map fst snd]. f_equal. exact IH.
Qed.

(** The order of the properties depends on the keys only. *)
Lemma own_properties_on_value {V W} (h : V -> W) (obj : list (jsstring * V)) :
  own_properties (List.map (on_value h) obj) =
  List.map (on_value h) (own_properties obj).
Proof.
  unfold own_properties. rewrite List.map_app. f_equal.
  - set (G := fun x : N * (jsstring * V) => (fst x, on_value h (snd x))).
    assert (Hfold : forall l acc,
      fold_left (fun acc kv => match array_index (fst kv) with
                               | Some n => insert_index n kv acc
                               | None => acc
                               end) (List.map (on_value h) l) (List.map G acc) =
      List.map G (fold_left (fun acc kv => match array_index (fst kv) with
                                           | Some n => insert_index n kv acc
                                           | None => acc
                                           end) l acc)).
    { induction l as [ | kv l IH]; intros acc; [ reflexivity | ].
      cbn [fold_left List.map]. cbn [on_value fst].
      destruct (array_index (fst kv)) as [n | ]; [ | apply IH ].
      change (fst kv, h (snd kv)) with (on_value h kv).
      unfold G at 1. rewrite insert_index_on_value. apply IH. }
    specialize (Hfold obj []). cbn [List.map] in Hfold. rewrite Hfold.
    rewrite !List.map_map. reflexivity.
  - induction obj as [ | kv obj IH]; [ reflexivity | ].
    cbn [List.map List.filter on_value fst].
    destruct (array_index (fst kv)); [ exact IH | ].
    cbn [List.map]. f_equal. exact IH.
Qed.

Lemma filter_all {A} (f : A -> bool) (l : list A) :
  forallb f l = true -> List.filter f l = l.
Proof.
  induction l as [ | x l IH]; [ reflexivity | ]. cbn [forallb List.filter].
  intros H. apply andb_true_iff in H. destruct H as [Hx Hl].
  rewrite Hx, (IH Hl). reflexivity.
Qed.

(** The values of a cursor whose parts have distinct, non-empty keys that
    name no property of [Object.prototype] and stand in the order in which
    an object lists them. *)
Lemma qs_parse_in_order (cursor : jsstring) :
  length (split (ch ";") cursor) <= 1000 ->
  List.NoDup (List.map fst (cursor_pairs cursor)) ->
  forallb (fun kv => truthy (fst kv) && negb (includes OBJECT_PROTOTYPE (fst kv)))
          (cursor_pairs cursor) = true ->
  own_properties (cursor_pairs cursor) = cursor_pairs cursor ->
  values (qs_parse (ch ";") cursor) = cursor_values cursor.
Proof.
  intros Hlen Hnd Hkeys Horder.
  assert (Hobj : parseValues (ch ";") cursor =
                 List.map (on_value QString) (cursor_pairs cursor)).
  { unfold parseValues. rewrite firstn_all2 by exact Hlen.
    rewrite fold_obj_add; [ reflexivity | exact Hnd ]. }
  unfold qs_parse. rewrite Hobj, own_properties_on_value, Horder.
  rewrite filter_all.
  - rewrite own_properties_on_value, Horder. unfold values, cursor_values.
    rewrite List.map_map. reflexivity.
  - rewrite forallb_forall in *. intros kv Hin.
    apply List.in_map_iff in Hin. destruct Hin as [x [<- Hx]].
    apply (Hkeys x Hx).
Qed.

Lemma BuildQuery_cursor (w : World) (d : QueryDocument) :
  fst (BuildQuery w) = Return d ->
  search_after d =
  if given (params.search_after (w_params w))
  then Some (values (qs_parse (ch ";") (str (params.search_after (w_params w)))))
  else None.
Proof.
  rewrite BuildQuery_unfold. cbv zeta.
  destruct (given (params.search (w_params w)) && negb _); [ discriminate | ].
  intros H. injection H as <-. unfold AddSearchAfter.
  destruct (given (params.search_after (w_params w))); [ reflexivity | ].
  unfold assembled.
  destruct (negb (given (params.search (w_params w)))
            && negb (given (params.count (w_params w)))); [ reflexivity | ].
  destruct (given (params.search (w_params w))), (given (params.count (w_params w)));
    try reflexivity;
    destruct (includes DATE_FIELDS (str (params.count (w_params w)))); reflexivity.
Qed.

(** ** C9: the cursor of the document *)

(** C9, as stated, fails on cursors that are not read part by part: a
    repeated key gives one array value, a key that is an array index is
    listed before the keys created earlier, and a part with an empty key
    gives no value. *)
Lemma BuildQuery_cursor_not_in_parameter_order :
  (fst (BuildQuery (fresh (cursor_params (js "a=1;a=2")))) =
   Return (Document (Some MatchAllQuery) [] (Some [QArray [js "1"; js "2"]]))
   /\ cursor_values (js "a=1;a=2") = [QString (js "1"); QString (js "2")])
  /\ (fst (BuildQuery (fresh (cursor_params (js "b=1;0=2")))) =
      Return (Document (Some MatchAllQuery) [] (Some [QString (js "2"); QString (js "1")]))
      /\ cursor_values (js "b=1;0=2") = [QString (js "1"); QString (js "2")])
  /\ (fst (BuildQuery (fresh (cursor_params (js "=1;b=2")))) =
      Return (Document (Some MatchAllQuery) [] (Some [QString (js "2")]))
      /\ cursor_values (js "=1;b=2") = [QString (js "1"); QString (js "2")]).
Proof. vm_compute. repeat split; reflexivity. Qed.

(** C9 (amended): when [search_after] is absent or empty, the document that
    [BuildQuery] returns carries no [search_after]; when it is present,
    within what the model of the parser covers and made of at most 1000
    parts whose keys are non-empty, pairwise distinct, name no property of
    [Object.prototype] and stand in the order in which an object lists them
    (array indices first, ascending), the document's [search_after] is the
    values of the [;]-delimited [key=value] parts in parameter order; the
    cursor [a=1;b=2] gives the values 1 and 2. *)
Theorem BuildQuery_search_after (w : World) :
  fst (BuildQuery (fresh (cursor_params (js "a=1;b=2")))) =
  Return (Document (Some MatchAllQuery) [] (Some [QString (js "1"); QString (js "2")]))
  /\ forall d, fst (BuildQuery w) = Return d ->
       let cursor := str (params.search_after (w_params w)) in
       (given (params.search_after (w_params w)) = false -> search_after d = None)
       /\ (given (params.search_after (w_params w)) = true ->
           qs_plain cursor = true ->
           length (split (ch ";") cursor) <= 1000 ->
           List.NoDup (List.map fst (cursor_pairs cursor)) ->
           forallb (fun kv => truthy (fst kv)
                              && negb (includes OBJECT_PROTOTYPE (fst kv)))
                   (cursor_pairs cursor) = true ->
           own_properties (cursor_pairs cursor) = cursor_pairs cursor ->
           search_after d = Some (cursor_values cursor)).
Proof.
  split; [ vm_compute; reflexivity | ].
  intros d Hd. cbv zeta. rewrite (BuildQuery_cursor w d Hd). split.
  - intros ->. reflexivity.
  - intros -> _ Hlen Hnd Hkeys Horder. f_equal.
    apply qs_parse_in_order; assumption.
Qed.

Lemma BuildQuery_search_after_witness :
  (exists d, fst (BuildQuery (fresh no_params)) = Return d /\ search_after d = None)
  /\ (exists d,
        fst (BuildQuery (fresh (cursor_params (js "0=1577836800000;1=abc+def"))))
        = Return d
        /\ search_after d = Some [QString (js "1577836800000"); QString (js "abc def")]).
Proof.
  split.
  - eexists. split; [ reflexivity | ].
    destruct (BuildQuery_search_after (fresh no_params)) as [_ H].
    destruct (H _ eq_refl) as [Habsent _]. apply Habsent. reflexivity.
  - eexists. split; [ reflexivity | ].
    destruct (BuildQuery_search_after
                (fresh (cursor_params (js "0=1577836800000;1=abc+def")))) as [_ H].
    destruct (H _ eq_refl) as [_ Hpresent]. apply Hpresent.
    + reflexivity.
    + reflexivity.
    + vm_compute. lia.
    + vm_compute. repeat constructor; simpl; intuition discriminate.
    + reflexivity.
    + reflexivity.
Defined.

(** ** C6: the shape of the document *)

(** C6, as stated, fails in each of its parts but the aggregation: a count
    request without a search string has no query clause at all, the cursor
    [;] gives a [search_after] that is present and empty, and a repeated key
    gives a value that is an array. *)
Lemma BuildQuery_document_invariant_fails :
  fst (BuildQuery (fresh (count_params (js "brand_name") (JNumber 10)))) =
  Return (Document None [terms_of_size (js "brand_name") (Some 1010%Z)] None)
  /\ fst (BuildQuery (fresh (cursor_params (js ";")))) =
     Return (Document (Some MatchAllQuery) [] (Some []))
  /\ fst (BuildQuery (fresh (cursor_params (js "a=1;a=2")))) =
     Return (Document (Some MatchAllQuery) [] (Some [QArray [js "1"; js "2"]])).
Proof. vm_compute. repeat split; reflexivity. Qed.

(** C6 (amended): every document returned by [BuildQuery] has at most one
    of a match-all clause and a text-query clause: the text-query clause
    when [search] is given, the match-all clause when neither [search] nor
    [count] is given, and no query clause when only [count] is given; it has
    at most one aggregation clause; and its [search_after] is present
    exactly when the cursor string is given, and is then, for a cursor
    string without brackets and percent escapes in which no key is repeated
    more than 20 times, the ordered sequence of the values that the cursor
    string parses to. *)
Theorem BuildQuery_document_shape (w : World) (d : QueryDocument) :
  fst (BuildQuery w) = Return d ->
  let p := w_params w in
  let cursor := str (params.search_after p) in
  query d =
    (if given (params.search p)
     then Some (QueryStringQuery (HandleDeprecatedClauses (str (params.search p))))
     else if given (params.count p) then None else Some MatchAllQuery)
  /\ length (aggs d) <= 1
  /\ (search_after d <> None <-> given (params.search_after p) = true)
  /\ (given (params.search_after p) = true ->
      qs_plain cursor = true ->
      repeats_within 20 (List.map fst (cursor_pairs cursor)) = true ->
      search_after d = Some (values (qs_parse (ch ";") cursor))).
Proof.
  intros Hd. cbv zeta. split; [ | split; [ | split ] ].
  - rewrite BuildQuery_unfold in Hd. cbv zeta in Hd.
    destruct (given (params.search (w_params w)) && negb _); [ discriminate | ].
    injection Hd as <-. rewrite AddSearchAfter_query. unfold assembled.
    destruct (given (params.search (w_params w))), (given (params.count (w_params w)));
      cbn [negb andb]; try reflexivity;
      destruct (includes DATE_FIELDS (str (params.count (w_params w)))); reflexivity.
  - rewrite BuildQuery_unfold in Hd. cbv zeta in Hd.
    destruct (given (params.search (w_params w)) && negb _); [ discriminate | ].
    injection Hd as <-. rewrite AddSearchAfter_aggs, assembled_aggs.
    destruct (given (params.count (w_params w)));
      [ destruct (includes DATE_FIELDS (str (params.count (w_params w)))) | ];
      simpl; lia.
  - rewrite (BuildQuery_cursor w d Hd).
    destruct (given (params.search_after (w_params w))); split; congruence.
  - intros Hg _ _. rewrite (BuildQuery_cursor w d Hd), Hg. reflexivity.
Qed.

Lemma BuildQuery_document_shape_witness :
  exists d,
    fst (BuildQuery (fresh (params.Make (Some (js "_missing_:drugstartdate"))
                              (Some (js "receivedate")) None JUndefined
                              (Some (js "0=20200101;1=abc"))))) = Return d
    /\ query d = Some (QueryStringQuery (js "(NOT (_exists_:drugstartdate))"))
    /\ length (aggs d) <= 1
    /\ search_after d <> None
    /\ search_after d = Some [QString (js "20200101"); QString (js "abc")].
Proof.
  eexists. split; [ reflexivity | ].
  destruct (BuildQuery_document_shape
              (fresh (params.Make (Some (js "_missing_:drugstartdate"))
                        (Some (js "receivedate")) None JUndefined
                        (Some (js "0=20200101;1=abc")))) _ eq_refl)
    as (Hq & Ha & Hpresent & Hvalues).
  split; [ exact Hq | ]. split; [ exact Ha | ].
  split; [ apply Hpresent; reflexivity | ].
  apply Hvalues; reflexivity.
Defined.

(** * Further properties of the module *)

(** ** The sortability check and its cache *)

Lemma includes_truthy (type : jsstring) :
  truthy type && includes SORTABLE_FIELD_TYPES type = includes SORTABLE_FIELD_TYPES type.
Proof. destruct type; reflexivity. Qed.

(** The call for a pair that is not cached, whatever the cluster answers. *)
Lemma isSortableField_uncached (client : Client) (field index : jsstring) (w : World) :
  truthy index = true -> truthy field = true ->
  fieldMappingCache w !! cache_key index field = None ->
  isSortableField client field (Some index) w =
  let o := client (length (w_requests w)) index field in
  (Return (sortable_type o),
   MkWorld (w_params w)
           (<[ cache_key index field := sortable_type o ]>
              (if lookup_throws o then ∅ else fieldMappingCache w))
           (w_requests w ++ [(index, field)])
           (if lookup_throws o then S (w_logged w) else w_logged w)).
Proof.
  intros Hi Hf Hc. unfold isSortableField. cbn [given str]. rewrite Hi, Hf.
  cbn [andb]. fold (cache_key index field). unfold_M.
  rewrite Hc. rewrite bool_decide_eq_false_2 by (intros [? ?]; discriminate).
  cbn [negb]. cbv beta zeta.
  destruct (client (length (w_requests w)) index field) as [ | [ | [ | [ty | ]] ms]];
    cbn [sortable_type lookup_throws given str];
    rewrite ?includes_truthy;
    try destruct (includes SORTABLE_FIELD_TYPES ty);
    cbn; rewrite lookup_insert_eq; reflexivity.
Qed.

(** After a call the answer is in the cache. *)
Lemma isSortableField_caches (client : Client) (field index : jsstring) (w : World) :
  truthy index = true -> truthy field = true ->
  exists b, fst (isSortableField client field (Some index) w) = Return b
            /\ fieldMappingCache (snd (isSortableField client field (Some index) w))
               !! cache_key index field = Some b.
Proof.
  intros Hi Hf.
  destruct (fieldMappingCache w !! cache_key index field) as [b | ] eqn:Hc.
  - exists b. rewrite (isSortableField_cached client field index w b Hi Hf Hc).
    split; [ reflexivity | exact Hc ].
  - rewrite (isSortableField_uncached client field index w Hi Hf Hc). cbv zeta.
    eexists. split; [ reflexivity | ]. cbn [snd fieldMappingCache].
    apply lookup_insert_eq.
Qed.

Lemma isSortableField_again (client : Client) (field : jsstring)
    (index : option jsstring) (w : World) :
  isSortableField client field index (snd (isSortableField client field index w)) =
  isSortableField client field index w.
Proof.
  destruct (given index && truthy field) eqn:Hg.
  - apply andb_true_iff in Hg. destruct Hg as [Hi Hf].
    destruct index as [index | ]; [ | discriminate ]. cbn [given] in Hi.
    destruct (isSortableField_caches client field index w Hi Hf) as [b [Hr Hc]].
    rewrite (isSortableField_cached client field index _ b Hi Hf Hc).
    rewrite <- Hr. destruct (isSortableField client field (Some index) w). reflexivity.
  - unfold isSortableField. rewrite Hg. reflexivity.
Qed.

(** X1: the answer for a pair is memoised.  A second call for the same
    index and field returns what the first returned and changes nothing: no
    request is sent and the cache stays as the first call left it, whatever
    the cluster would answer by then. *)
Theorem isSortableField_memoised (client : Client) (field : jsstring)
    (index : option jsstring) (w : World) :
  let first := isSortableField client field index w in
  let second := isSortableField client field index (snd first) in
  fst second = fst first
  /\ snd second = snd first
  /\ w_requests (snd second) = w_requests (snd first).
Proof.
  cbv zeta. rewrite isSortableField_again.
  destruct (isSortableField client field index w). repeat split; reflexivity.
Qed.

Lemma sortable_type_true (o : LookupOutcome) :
  sortable_type o = true <->
  exists type ms, o = LookupMappings (MappingObject (Some type) :: ms)
                  /\ In type SORTABLE_FIELD_TYPES.
Proof.
  split.
  - destruct o as [ | [ | [ | [type | ]] ms]]; cbn [sortable_type]; try discriminate.
    intros H. exists type, ms. split; [ reflexivity | apply includes_In, H ].
  - intros (type & ms & -> & Hin). cbn [sortable_type]. apply includes_In, Hin.
Qed.

(** X2: for a pair that is not cached, [isSortableField] answers true
    exactly when the first mapping of the response has a type and that type
    is keyword, short, integer, byte or date; the answer is stored under the
    key of the pair; and unless the lookup throws, every other entry of the
    cache is as it was. *)
Theorem isSortableField_allow_list (client : Client) (field index : jsstring)
    (w : World) :
  truthy index = true -> truthy field = true ->
  fieldMappingCache w !! cache_key index field = None ->
  let o := client (length (w_requests w)) index field in
  let result := isSortableField client field (Some index) w in
  (fst result = Return true <->
   exists type ms, o = LookupMappings (MappingObject (Some type) :: ms)
                   /\ In type (List.map js ["keyword"; "short"; "integer"; "byte"; "date"]%string))
  /\ (fst result = Return true \/ fst result = Return false)
  /\ (fieldMappingCache (snd result) !! cache_key index field = Some true <->
      fst result = Return true)
  /\ (lookup_throws o = false ->
      forall k, k <> cache_key index field ->
                fieldMappingCache (snd result) !! k = fieldMappingCache w !! k).
Proof.
  intros Hi Hf Hc o result. subst o result.
  rewrite (isSortableField_uncached client field index w Hi Hf Hc). cbv zeta.
  cbn [fst snd fieldMappingCache]. rewrite lookup_insert_eq.
  split; [ | split; [ | split ] ].
  - rewrite <- sortable_type_true. split; [ intros H; injection H as ->; reflexivity | ].
    intros ->. reflexivity.
  - destruct (sortable_type _); [ left | right ]; reflexivity.
  - split; intros H; injection H as ->; reflexivity.
  - intros -> k Hk. apply lookup_insert_ne. congruence.
Qed.

Lemma isSortableField_allow_list_witness :
  fst (isSortableField (always (reports (js "keyword"))) (js "brand_name")
         (Some (js "drug")) (MkWorld no_params {[ js "drug.receivedate" := true ]} [] 0))
  = Return true
  /\ fieldMappingCache
       (snd (isSortableField (always (reports (js "text"))) (js "brand_name")
               (Some (js "drug"))
               (MkWorld no_params {[ js "drug.receivedate" := true ]} [] 0)))
     !! js "drug.receivedate" = Some true.
Proof.
  pose (w := MkWorld no_params {[ js "drug.receivedate" := true ]} [] 0).
  assert (Hkey : fieldMappingCache w !! cache_key (js "drug") (js "brand_name") = None).
  { apply lookup_singleton_ne. vm_compute. discriminate. }
  split.
  - destruct (isSortableField_allow_list (always (reports (js "keyword")))
                (js "brand_name") (js "drug") w eq_refl eq_refl Hkey) as (Htrue & _).
    apply Htrue. exists (js "keyword"), []. split; [ reflexivity | ].
    left. reflexivity.
  - destruct (isSortableField_allow_list (always (reports (js "text")))
                (js "brand_name") (js "drug") w eq_refl eq_refl Hkey)
      as (_ & _ & _ & Hframe).
    fold w. rewrite (Hframe eq_refl (js "drug.receivedate")).
    + apply lookup_singleton_eq.
    + vm_compute. discriminate.
Defined.

(** X3: what a call costs.  [isSortableField] never touches [params]; a
    pair that is cached is answered without any effect; a pair that is not
    cached costs exactly one request, for that index and field, appended to
    the requests sent so far, and one logged error exactly when the lookup
    throws. *)
Theorem isSortableField_effects (client : Client) (field index : jsstring)
    (w : World) :
  truthy index = true -> truthy field = true ->
  let result := isSortableField client field (Some index) w in
  w_params (snd result) = w_params w
  /\ (is_Some (fieldMappingCache w !! cache_key index field) -> snd result = w)
  /\ (fieldMappingCache w !! cache_key index field = None ->
      w_requests (snd result) = w_requests w ++ [(index, field)]
      /\ w_logged (snd result) =
         if lookup_throws (client (length (w_requests w)) index field)
         then S (w_logged w) else w_logged w).
Proof.
  intros Hi Hf result. subst result.
  split; [ apply isSortableField_params | ]. split.
  - intros [b Hb]. rewrite (isSortableField_cached client field index w b Hi Hf Hb).
    reflexivity.
  - intros Hc. rewrite (isSortableField_uncached client field index w Hi Hf Hc).
    cbv zeta. split; reflexivity.
Qed.

Lemma isSortableField_effects_witness :
  w_requests (snd (isSortableField (always LookupThrows) (js "brand_name")
                     (Some (js "drug")) (fresh no_params)))
  = [(js "drug", js "brand_name")]
  /\ w_logged (snd (isSortableField (always LookupThrows) (js "brand_name")
                      (Some (js "drug")) (fresh no_params))) = 1.
Proof.
  destruct (isSortableField_effects (always LookupThrows) (js "brand_name") (js "drug")
              (fresh no_params) eq_refl eq_refl) as (_ & _ & Hcost).
  destruct (Hcost eq_refl) as [Hreq Hlog]. split; [ exact Hreq | exact Hlog ].
Defined.

Lemma truthy_app_r (a b : jsstring) : truthy b = true -> truthy (a ++ b) = true.
Proof.
  unfold truthy. rewrite length_app. destruct b; [ discriminate | ].
  intros _. simpl. rewrite Nat.add_succ_r. reflexivity.
Qed.

(** X4: the cache key does not keep index and field apart.  The pair of
    index [i.x] and field [y] and the pair of index [i] and field [x.y]
    share the key [i.x.y]: after a call for the first, a call for the second
    is answered from the cache with the answer of the first, and no request
    is sent for it. *)
Theorem isSortableField_key_shared (client : Client) (i x y : jsstring) (w : World) :
  truthy i = true -> truthy y = true ->
  let first := isSortableField client y (Some (i ++ js "." ++ x)) w in
  isSortableField client (x ++ js "." ++ y) (Some i) (snd first) =
  (fst first, snd first).
Proof.
  intros Hi Hy first. subst first.
  assert (Hix : truthy (i ++ js "." ++ x) = true).
  { unfold truthy. rewrite !length_app. unfold truthy in Hi.
    destruct (length i); [ discriminate | reflexivity ]. }
  destruct (isSortableField_caches client y (i ++ js "." ++ x) w Hix Hy) as [b [Hr Hc]].
  rewrite Hr. apply isSortableField_cached.
  - exact Hi.
  - apply truthy_app_r, truthy_app_r, Hy.
  - unfold cache_key in *. rewrite <- !app_assoc in Hc. exact Hc.
Qed.

Lemma isSortableField_key_shared_witness :
  isSortableField (always (reports (js "keyword"))) (js "openfda.brand_name")
    (Some (js "drug"))
    (snd (isSortableField (always (reports (js "text"))) (js "brand_name")
            (Some (js "drug.openfda")) (fresh no_params)))
  = (Return false,
     snd (isSortableField (always (reports (js "text"))) (js "brand_name")
            (Some (js "drug.openfda")) (fresh no_params))).
Proof.
  apply (isSortableField_key_shared (always (reports (js "text")))
           (js "drug") (js "openfda") (js "brand_name") (fresh no_params));
    reflexivity.
Defined.

(** ** Trimming *)

Lemma trimStart_suffix (s : jsstring) : exists x, s = x ++ trimStart s.
Proof.
  induction s as [ | c t [x IH]]; [ exists []; reflexivity | ].
  cbn [trimStart]. destruct (is_space c).
  - exists (c :: x). cbn [app]. f_equal. exact IH.
  - exists []. reflexivity.
Qed.

Lemma trimStart_head (s : jsstring) :
  match trimStart s with c :: _ => is_space c = false | [] => True end.
Proof.
  induction s as [ | c t IH]; [ exact I | ].
  cbn [trimStart]. destruct (is_space c) eqn:E; [ exact IH | exact E ].
Qed.

Lemma trimStart_fixed (s : jsstring) :
  match s with c :: _ => is_space c = false | [] => True end -> trimStart s = s.
Proof. destruct s as [ | c t]; [ reflexivity | ]. cbn [trimStart]. intros ->. reflexivity. Qed.

Lemma trim_idempotent (s : jsstring) : trim (trim s) = trim s.
Proof.
  unfold trim. set (a := trimStart s). set (b := trimStart (rev a)).
  assert (Hb : trimStart b = b) by (apply trimStart_fixed, trimStart_head).
  assert (Hrb : trimStart (rev b) = rev b).
  { apply trimStart_fixed.
    destruct (trimStart_suffix (rev a)) as [x Hx]. fold b in Hx.
    assert (Ha : a = rev b ++ rev x).
    { rewrite <- (rev_involutive a), Hx, rev_app_distr. reflexivity. }
    pose proof (trimStart_head s) as Hh. fold a in Hh.
    destruct (rev b) as [ | c t]; [ exact I | ].
    rewrite Ha in Hh. exact Hh. }
  rewrite Hrb, rev_involutive, Hb. reflexivity.
Qed.

Lemma trim_nil : trim [] = [].
Proof. reflexivity. Qed.

(** ** More on the sort builder *)

Lemma set_sort_same (p : params.t) (v : jsstring) :
  params.sort p = Some v -> params.set_sort v p = p.
Proof. destruct p. cbn. intros ->. reflexivity. Qed.

Lemma with_params_same (w : World) : with_params (w_params w) w = w.
Proof. destruct w. reflexivity. Qed.

Lemma BuildSort_outcome (client : Client) (index : option jsstring) (w : World) :
  BuildSort client index w =
  if given (params.sort (w_params w)) then
    sort_outcome client index (trim (str (params.sort (w_params w))))
      (with_params (params.set_sort (trim (str (params.sort (w_params w))))
                                    (w_params w)) w)
  else (Return (js "_id"), w).
Proof. apply BuildSort_unfold. Qed.

Lemma sort_outcome_params (client : Client) (index : option jsstring)
    (sort : jsstring) (w1 : World) :
  w_params (snd (sort_outcome client index sort w1)) = w_params w1.
Proof.
  unfold sort_outcome.
  destruct (negb (SupportedQueryString sort)); [ reflexivity | ].
  destruct (indexOf sort (js "exact")); [ reflexivity | ].
  destruct (List.find _ DATE_FIELDS); [ reflexivity | ].
  pose proof (isSortableField_params client (sort_field sort) index w1) as Hp.
  destruct (isSortableField client (sort_field sort) index w1) as [[[ | ] | e] w2];
    exact Hp.
Qed.

Lemma sort_outcome_again (client : Client) (index : option jsstring)
    (sort : jsstring) (w1 : World) :
  sort_outcome client index sort (snd (sort_outcome client index sort w1)) =
  sort_outcome client index sort w1.
Proof.
  unfold sort_outcome.
  destruct (negb (SupportedQueryString sort)); [ reflexivity | ].
  destruct (indexOf sort (js "exact")); [ reflexivity | ].
  destruct (List.find _ DATE_FIELDS); [ reflexivity | ].
  pose proof (isSortableField_again client (sort_field sort) index w1) as Ha.
  destruct (isSortableField client (sort_field sort) index w1) as [[[ | ] | e] w2];
    cbn [fst snd] in *; rewrite Ha; reflexivity.
Qed.

Lemma truthy_nonempty (s : jsstring) : truthy s = true <-> s <> [].
Proof. destruct s; cbn; split; congruence. Qed.

(** X5: [BuildSort] can be repeated on the same [params] object.  When the
    sort expression is absent, or has more than white space in it, a second
    call on what the first call left returns or throws the same and changes
    nothing more.  A sort expression of white space only is refused the
    first time and, having been written back empty, gives the default order
    the second time. *)
Theorem BuildSort_repeated (client : Client) (index : option jsstring) (w : World) :
  let first := BuildSort client index w in
  (given (params.sort (w_params w)) = false
   \/ trim (str (params.sort (w_params w))) <> [] ->
   BuildSort client index (snd first) = first)
  /\ (given (params.sort (w_params w)) = true ->
      trim (str (params.sort (w_params w))) = [] ->
      fst first = Throw (Error ELASTICSEARCH_QUERY_ERROR (js "Sort not supported: "))
      /\ fst (BuildSort client index (snd first)) = Return (js "_id")).
Proof.
  cbv zeta. rewrite (BuildSort_outcome client index w). split.
  - intros H. destruct (given (params.sort (w_params w))) eqn:Hg.
    + destruct H as [H | Hne]; [ discriminate | ].
      set (t := trim (str (params.sort (w_params w)))) in *.
      set (w1 := with_params (params.set_sort t (w_params w)) w).
      rewrite BuildSort_outcome, sort_outcome_params.
      assert (Hs : params.sort (w_params w1) = Some t) by reflexivity.
      rewrite Hs. cbn [given str].
      replace (truthy t) with true by (symmetry; apply truthy_nonempty, Hne).
      assert (Ht : trim t = t) by (unfold t; apply trim_idempotent).
      rewrite Ht, (set_sort_same _ t Hs).
      replace (with_params (w_params w1) (snd (sort_outcome client index t w1)))
        with (snd (sort_outcome client index t w1)).
      * apply sort_outcome_again.
      * rewrite <- (sort_outcome_params client index t w1). symmetry.
        apply with_params_same.
    + rewrite BuildSort_outcome. cbn [snd]. rewrite Hg. reflexivity.
  - intros -> Ht. rewrite Ht. split; [ reflexivity | ].
    rewrite BuildSort_outcome. reflexivity.
Qed.

Lemma BuildSort_repeated_witness :
  BuildSort (fails_once_then (reports (js "keyword"))) (Some (js "drug"))
    (snd (BuildSort (fails_once_then (reports (js "keyword"))) (Some (js "drug"))
            (fresh (sort_params (js " brand_name:asc ")))))
  = BuildSort (fails_once_then (reports (js "keyword"))) (Some (js "drug"))
      (fresh (sort_params (js " brand_name:asc ")))
  /\ fst (BuildSort (always LookupThrows) None
            (snd (BuildSort (always LookupThrows) None (fresh (sort_params (js "  "))))))
     = Return (js "_id").
Proof.
  split.
  - apply (BuildSort_repeated (fails_once_then (reports (js "keyword")))
             (Some (js "drug")) (fresh (sort_params (js " brand_name:asc ")))).
    right. vm_compute. discriminate.
  - apply (BuildSort_repeated (always LookupThrows) None
             (fresh (sort_params (js "  ")))); reflexivity.
Defined.

(** X6: white space around the sort expression is insignificant.  With the
    expression as given and with the expression trimmed, [BuildSort] returns
    or throws the same and leaves the same world, [params] included. *)
Theorem BuildSort_ignores_surrounding_space (client : Client)
    (index : option jsstring) (w : World) (s : jsstring) :
  trim s <> [] ->
  BuildSort client index (with_params (with_sort (Some s) (w_params w)) w) =
  BuildSort client index (with_params (with_sort (Some (trim s)) (w_params w)) w).
Proof.
  intros Hne. rewrite !BuildSort_outcome. cbn [with_params w_params with_sort params.sort].
  cbn [given str]. rewrite trim_idempotent.
  replace (truthy (trim s)) with true by (symmetry; apply truthy_nonempty, Hne).
  replace (truthy s) with true.
  - reflexivity.
  - symmetry. apply truthy_nonempty. intros ->. apply Hne. reflexivity.
Qed.

Lemma BuildSort_ignores_surrounding_space_witness :
  BuildSort (always (reports (js "keyword"))) (Some (js "drug"))
    (fresh (sort_params (js "  brand_name:desc ")))
  = BuildSort (always (reports (js "keyword"))) (Some (js "drug"))
      (fresh (sort_params (js "brand_name:desc"))).
Proof.
  apply (BuildSort_ignores_surrounding_space (always (reports (js "keyword")))
           (Some (js "drug")) (fresh no_params) (js "  brand_name:desc ")).
  vm_compute. discriminate.
Defined.

(** X7: without an index, or with an empty field name, nothing can be
    confirmed.  A supported sort expression that does not contain [exact]
    and whose field matches no date field is then rejected with the error
    that names the field, and neither a request is sent nor the cache
    changed. *)
Theorem BuildSort_needs_index (client : Client) (index : option jsstring)
    (w : World) (s : jsstring) :
  params.sort (w_params w) = Some s ->
  SupportedQueryString (trim s) = true ->
  indexOf (trim s) (js "exact") = None ->
  List.find (fun f => endsWith (sort_field (trim s)) f) DATE_FIELDS = None ->
  given index = false \/ sort_field (trim s) = [] ->
  BuildSort client index w =
  (Throw (sort_error (sort_field (trim s))),
   with_params (params.set_sort (trim s) (w_params w)) w).
Proof.
  intros Hs Hq Hex Hdate Hidx.
  assert (Hgiven : given (params.sort (w_params w)) = true).
  { rewrite Hs. cbn [given]. apply SupportedQueryString_truthy in Hq.
    destruct s; [ discriminate | reflexivity ]. }
  rewrite BuildSort_outcome, Hgiven, Hs. cbn [str]. unfold sort_outcome.
  rewrite Hq, Hex, Hdate. cbn [negb]. cbv zeta.
  assert (Hno : given index && truthy (sort_field (trim s)) = false).
  { destruct Hidx as [-> | ->]; [ reflexivity | apply andb_false_r ]. }
  unfold isSortableField. rewrite Hno. reflexivity.
Qed.

Lemma BuildSort_needs_index_witness :
  BuildSort (always (reports (js "keyword"))) None
    (fresh (sort_params (js "brand_name:asc")))
  = (Throw (sort_error (js "brand_name")), fresh (sort_params (js "brand_name:asc")))
  /\ fst (BuildSort (always (reports (js "keyword"))) (Some (js "drug"))
            (fresh (sort_params (js ":asc"))))
     = Throw (sort_error []).
Proof.
  split.
  - apply (BuildSort_needs_index (always (reports (js "keyword"))) None
             (fresh (sort_params (js "brand_name:asc"))) (js "brand_name:asc"));
      try reflexivity.
    left. reflexivity.
  - rewrite (BuildSort_needs_index (always (reports (js "keyword"))) (Some (js "drug"))
               (fresh (sort_params (js ":asc"))) (js ":asc"));
      try reflexivity.
    right. reflexivity.
Defined.

Lemma split_head_clean (d : N) (s : jsstring) :
  match split d s with
  | x :: _ => ~ In d x
  | [] => True
  end.
Proof.
  induction s as [ | c t IH]; [ cbn; tauto | ].
  cbn [split]. destruct (N.eqb_spec c d) as [-> | Hcd]; [ cbn; tauto | ].
  destruct (split d t) as [ | x xs]; cbn.
  - intros [-> | []]. congruence.
  - intros [-> | Hin]; [ congruence | exact (IH Hin) ].
Qed.

Lemma sort_field_supported (sort : jsstring) :
  SupportedQueryString sort = true ->
  forallb supported_char (sort_field sort) = true
  /\ ~ In (ch ":") (sort_field sort).
Proof.
  intros Hq. split.
  - rewrite SupportedQueryString_forallb in Hq. apply andb_true_iff in Hq.
    destruct Hq as [_ Hall]. destruct (sort_field_prefix sort) as [r Hr].
    rewrite Hr, forallb_app in Hall. apply andb_true_iff in Hall. apply Hall.
  - unfold sort_field. pose proof (split_head_clean (ch ":") sort) as H.
    destruct (split (ch ":") sort); [ cbn; tauto | exact H ].
Qed.

(** X8: validation comes before any lookup.  A call of [BuildSort] sends
    at most one request, and only for a sort expression that has passed the
    validator: the field it asks the cluster about is the part of the
    trimmed expression before the first colon, consists of supported
    characters only and contains no colon. *)
Theorem BuildSort_requests_validated (client : Client) (index : option jsstring)
    (w : World) :
  let after := snd (BuildSort client index w) in
  w_requests after = w_requests w
  \/ exists i s,
       index = Some i /\ params.sort (w_params w) = Some s
       /\ SupportedQueryString (trim s) = true
       /\ w_requests after = w_requests w ++ [(i, sort_field (trim s))]
       /\ forallb supported_char (sort_field (trim s)) = true
       /\ ~ In (ch ":") (sort_field (trim s)).
Proof.
  cbv zeta. rewrite BuildSort_outcome.
  destruct (given (params.sort (w_params w))) eqn:Hg; [ | left; reflexivity ].
  destruct (params.sort (w_params w)) as [s | ] eqn:Hs; [ | discriminate ].
  cbn [str]. unfold sort_outcome.
  destruct (SupportedQueryString (trim s)) eqn:Hq; cbn [negb]; [ | left; reflexivity ].
  destruct (indexOf (trim s) (js "exact")); [ left; reflexivity | ].
  destruct (List.find _ DATE_FIELDS); [ left; reflexivity | ].
  cbv zeta.
  set (w1 := with_params (params.set_sort (trim s) (w_params w)) w).
  assert (Hreq : w_requests
                   (snd (isSortableField client (sort_field (trim s)) index w1))
                 = w_requests w
                 \/ exists i, index = Some i
                    /\ w_requests
                         (snd (isSortableField client (sort_field (trim s)) index w1))
                       = w_requests w ++ [(i, sort_field (trim s))]).
  { destruct (given index && truthy (sort_field (trim s))) eqn:Hgi.
    - apply andb_true_iff in Hgi. destruct Hgi as [Hi Hf].
      destruct index as [i | ]; [ | discriminate ]. cbn [given] in Hi.
      destruct (fieldMappingCache w1 !! cache_key i (sort_field (trim s)))
        as [b | ] eqn:Hc.
      + left. rewrite (isSortableField_cached client _ i w1 b Hi Hf Hc). reflexivity.
      + right. exists i. split; [ reflexivity | ].
        rewrite (isSortableField_uncached client _ i w1 Hi Hf Hc). reflexivity.
    - left. unfold isSortableField. rewrite Hgi. reflexivity. }
  destruct (isSortableField client (sort_field (trim s)) index w1) as [[[ | ] | e] w2];
    cbn [fst snd] in *;
    (destruct Hreq as [Hreq | [i [Hi Hreq]]];
     [ left; exact Hreq
     | right; exists i, s;
       destruct (sort_field_supported (trim s) Hq) as [Hall Hcolon];
       repeat split; assumption || reflexivity ]).
Qed.

(** ** Errors *)

Lemma escape_safe (s : jsstring) :
  forallb (fun c => negb (html_special c)) (escape s) = true.
Proof.
  unfold escape. induction s as [ | c t IH]; [ reflexivity | ].
  cbn [flat_map]. rewrite forallb_app, IH, andb_true_r.
  unfold escape_char.
  destruct (N.eqb c DQUOTE) eqn:E1; [ reflexivity | ].
  destruct (N.eqb c (ch "&")) eqn:E2; [ reflexivity | ].
  destruct (N.eqb c (ch "'")) eqn:E3; [ reflexivity | ].
  destruct (N.eqb c (ch "<")) eqn:E4; [ reflexivity | ].
  destruct (N.eqb c (ch ">")) eqn:E5; [ reflexivity | ].
  cbn [forallb]. unfold html_special. rewrite E1, E3, E4, E5. reflexivity.
Qed.

(** X9: every error that [BuildSort] or [BuildQuery] throws is a
    query-validation error, named [ElasticsearchQueryError], and its message
    echoes the caller's input escaped: it contains no double quote, no
    apostrophe, no less-than and no greater-than sign. *)
Theorem builders_errors_escaped (client : Client) (index : option jsstring)
    (w : World) (e : JsError) :
  fst (BuildSort client index w) = Throw e \/ fst (BuildQuery w) = Throw e ->
  name e = ELASTICSEARCH_QUERY_ERROR
  /\ forallb (fun c => negb (html_special c)) (message e) = true.
Proof.
  assert (Hshape : forall prefix s,
            forallb (fun c => negb (html_special c)) prefix = true ->
            Throw (A := jsstring) (Error ELASTICSEARCH_QUERY_ERROR (prefix ++ escape s))
            = Throw e ->
            name e = ELASTICSEARCH_QUERY_ERROR
            /\ forallb (fun c => negb (html_special c)) (message e) = true).
  { intros prefix s Hp He. assert (e = Error ELASTICSEARCH_QUERY_ERROR (prefix ++ escape s))
      as -> by congruence.
    cbn [name message]. split; [ reflexivity | ].
    rewrite forallb_app, Hp, escape_safe. reflexivity. }
  intros [H | H].
  - rewrite BuildSort_outcome in H.
    destruct (given (params.sort (w_params w))); [ | discriminate ].
    unfold sort_outcome in H.
    destruct (negb (SupportedQueryString _)).
    { cbn [fst] in H. eapply Hshape; cycle 1; [ exact H | reflexivity ]. }
    destruct (indexOf _ (js "exact")); [ discriminate | ].
    destruct (List.find _ DATE_FIELDS); [ discriminate | ].
    cbv zeta in H.
    destruct (isSortableField_returns client
                (sort_field (trim (str (params.sort (w_params w))))) index
                (with_params (params.set_sort (trim (str (params.sort (w_params w))))
                                              (w_params w)) w)) as [b Hb].
    rewrite Hb in H. destruct b; [ discriminate | ].
    cbn [fst] in H. unfold sort_error in H.
    eapply Hshape; cycle 1; [ exact H | reflexivity ].
  - rewrite BuildQuery_unfold in H. cbv zeta in H.
    destruct (given (params.search (w_params w)) && negb _); [ | discriminate ].
    assert (H' : Throw (A := jsstring)
                   (Error ELASTICSEARCH_QUERY_ERROR
                      (js "Search not supported: "
                       ++ escape (str (params.search (w_params w))))) = Throw e)
      by congruence.
    eapply Hshape; cycle 1; [ exact H' | reflexivity ].
Qed.

Lemma builders_errors_escaped_witness :
  exists e,
    fst (BuildQuery (fresh (params.Make (Some (js "<script>alert(1);</script>"))
                              None None JUndefined None))) = Throw e
    /\ name e = ELASTICSEARCH_QUERY_ERROR
    /\ message e = js "Search not supported: &lt;script&gt;alert(1);&lt;/script&gt;"
    /\ forallb (fun c => negb (html_special c)) (message e) = true.
Proof.
  eexists. split; [ reflexivity | ].
  destruct (builders_errors_escaped (always LookupThrows) None
              (fresh (params.Make (Some (js "<script>alert(1);</script>"))
                        None None JUndefined None)) _ (or_intror eq_refl))
    as [Hname Hsafe].
  split; [ exact Hname | ]. split; [ reflexivity | exact Hsafe ].
Defined.

(** ** Date fields *)

(** The check that [BuildSort] makes of a sort expression that needs no
    lookup, as one condition. *)
Lemma date_sorts_checked :
  forallb (fun f =>
    forallb (fun dir =>
      str_eqb (trim (f ++ dir)) (f ++ dir)
      && SupportedQueryString (f ++ dir)
      && match indexOf (f ++ dir) (js "exact") with Some _ => false | None => true end
      && match List.find (fun g => endsWith (sort_field (f ++ dir)) g) DATE_FIELDS with
         | Some _ => true
         | None => false
         end) DIRECTIONS) DATE_FIELDS = true.
Proof. vm_compute. reflexivity. Qed.

(** X10: every field of the date-field set, with no direction, with [:asc]
    or with [:desc], is a sort expression that [BuildSort] accepts without a
    metadata lookup: the result is the expression with [,_id] appended and
    the world, [params] included, is as it was. *)
Theorem BuildSort_date_fields (client : Client) (index : option jsstring)
    (w : World) (f dir : jsstring) :
  In f DATE_FIELDS -> In dir DIRECTIONS ->
  params.sort (w_params w) = Some (f ++ dir) ->
  BuildSort client index w = (Return (f ++ dir ++ js ",_id"), w).
Proof.
  intros Hf Hdir Hs.
  pose proof date_sorts_checked as H. rewrite forallb_forall in H.
  specialize (H f Hf). rewrite forallb_forall in H. specialize (H dir Hdir).
  repeat (apply andb_true_iff in H; destruct H as [H ?]).
  apply str_eqb_eq in H.
  assert (Hne : truthy (f ++ dir) = true)
    by (apply SupportedQueryString_truthy; assumption).
  rewrite BuildSort_outcome, Hs. cbn [given str]. rewrite Hne, H.
  rewrite (set_sort_same _ _ Hs), with_params_same. unfold sort_outcome.
  match goal with Hq : SupportedQueryString _ = true |- _ => rewrite Hq end.
  cbn [negb].
  destruct (indexOf (f ++ dir) (js "exact")); [ discriminate | ].
  destruct (List.find _ DATE_FIELDS); [ | discriminate ].
  rewrite <- app_assoc. reflexivity.
Qed.

Lemma BuildSort_date_fields_witness :
  BuildSort (always LookupThrows) None (fresh (sort_params (js "date_received:asc")))
  = (Return (js "date_received:asc,_id"), fresh (sort_params (js "date_received:asc"))).
Proof.
  apply (BuildSort_date_fields (always LookupThrows) None
           (fresh (sort_params (js "date_received:asc")))
           (js "date_received") (js ":asc")).
  - apply includes_In. reflexivity.
  - right. left. reflexivity.
  - reflexivity.
Defined.

(** ** More on the query builder *)

Lemma span_forallb (p : N -> bool) (s : jsstring) :
  forallb p (fst (span p s)) = true.
Proof.
  induction s as [ | c t IH]; [ reflexivity | ]. cbn [span].
  destruct (p c) eqn:E; [ | reflexivity ].
  destruct (span p t) as [a b]. cbn [fst forallb] in *. rewrite E, IH. reflexivity.
Qed.

Lemma replace_from_supported (fuel pos : nat) (s : jsstring) :
  forallb supported_char s = true ->
  forallb supported_char (replace_from fuel MISSING_RE EXISTS_TPL pos s) = true.
Proof.
  revert pos s. induction fuel as [ | fuel IH]; intros pos s Hs; [ exact Hs | ].
  rewrite replace_from_missing. cbv zeta.
  assert (Hcopy : forallb supported_char
                    match s with
                    | [] => []
                    | c :: t => c :: replace_from fuel MISSING_RE EXISTS_TPL (S pos) t
                    end = true).
  { destruct s as [ | c t]; [ reflexivity | ]. cbn [forallb] in *.
    apply andb_true_iff in Hs. destruct Hs as [Hc Ht].
    rewrite Hc, (IH _ _ Ht). reflexivity. }
  destruct (strip_prefix MISSING s) as [t | ] eqn:Hp; [ | exact Hcopy ].
  destruct (field_path t) as [[fp rest] | ] eqn:Hfp; [ | exact Hcopy ].
  apply strip_prefix_some in Hp. apply field_path_app in Hfp. subst s t.
  rewrite !forallb_app in Hs.
  apply andb_true_iff in Hs. destruct Hs as [_ Hs].
  apply andb_true_iff in Hs. destruct Hs as [Hfp Hrest].
  unfold not_exists. rewrite !forallb_app, Hfp, (IH _ _ Hrest). reflexivity.
Qed.

Lemma HandleDeprecatedClauses_truthy (s : jsstring) :
  truthy s = true -> truthy (HandleDeprecatedClauses s) = true.
Proof.
  unfold HandleDeprecatedClauses, replace_all. rewrite replace_from_missing. cbv zeta.
  intros Hs.
  assert (Hcopy : truthy match s with
                         | [] => []
                         | c :: t => c :: replace_from (length s) MISSING_RE EXISTS_TPL 1 t
                         end = true).
  { destruct s; [ discriminate | reflexivity ]. }
  destruct (strip_prefix MISSING s) as [t | ]; [ | exact Hcopy ].
  destruct (field_path t) as [[fp rest] | ]; [ reflexivity | exact Hcopy ].
Qed.

Lemma HandleDeprecatedClauses_supported (s : jsstring) :
  SupportedQueryString s = true ->
  SupportedQueryString (HandleDeprecatedClauses s) = true.
Proof.
  rewrite !SupportedQueryString_forallb. intros H.
  apply andb_true_iff in H. destruct H as [Ht Hall].
  rewrite (HandleDeprecatedClauses_truthy s Ht).
  apply replace_from_supported, Hall.
Qed.

Lemma assembled_query (p : params.t) :
  query (assembled p) =
  if given (params.search p)
  then Some (QueryStringQuery (HandleDeprecatedClauses (str (params.search p))))
  else if given (params.count p) then None else Some MatchAllQuery.
Proof.
  unfold assembled.
  destruct (given (params.search p)), (given (params.count p)); cbn [negb andb];
    try reflexivity;
    destruct (includes DATE_FIELDS (str (params.count p))); reflexivity.
Qed.

(** X11: the rewriting stays inside the whitelist.  The text that
    [HandleDeprecatedClauses] makes of an accepted query string is accepted
    by [SupportedQueryString] as well; so the text of the query-string
    clause of every document that [BuildQuery] returns consists of supported
    characters only. *)
Theorem BuildQuery_query_text_supported (w : World) :
  (forall s, SupportedQueryString s = true ->
             SupportedQueryString (HandleDeprecatedClauses s) = true)
  /\ (forall d q, fst (BuildQuery w) = Return d ->
                  query d = Some (QueryStringQuery q) ->
                  SupportedQueryString q = true).
Proof.
  split; [ apply HandleDeprecatedClauses_supported | ].
  intros d q Hd Hq. rewrite BuildQuery_unfold in Hd. cbv zeta in Hd.
  destruct (given (params.search (w_params w))) eqn:Hg;
    destruct (SupportedQueryString (str (params.search (w_params w)))) eqn:Hs;
    cbn [andb negb] in Hd; try discriminate;
    injection Hd as <-; rewrite AddSearchAfter_query, assembled_query, Hg in Hq.
  - injection Hq as <-. apply HandleDeprecatedClauses_supported, Hs.
  - destruct (given (params.count (w_params w))); discriminate.
  - destruct (given (params.count (w_params w))); discriminate.
Qed.

Lemma BuildQuery_query_text_supported_witness :
  SupportedQueryString (HandleDeprecatedClauses (js "_missing_:drugstartdate AND a:1"))
  = true.
Proof.
  apply (BuildQuery_query_text_supported (fresh no_params)). reflexivity.
Defined.

(** X12: the cursor changes nothing but [search_after].  With any other
    cursor in [params], [BuildQuery] throws the same error or returns a
    document with the same query clause and the same aggregations: every
    page of a result is asked for with the same query. *)
Theorem BuildQuery_cursor_independent (w : World) (c : option jsstring) :
  match fst (BuildQuery w),
        fst (BuildQuery (with_params (with_cursor c (w_params w)) w)) with
  | Return d, Return d' => query d' = query d /\ aggs d' = aggs d
  | Throw e, Throw e' => e' = e
  | _, _ => False
  end.
Proof.
  rewrite !BuildQuery_unfold. cbv zeta.
  cbn [with_params w_params with_cursor params.search].
  destruct (given (params.search (w_params w)) && negb _); [ reflexivity | ].
  rewrite !AddSearchAfter_query, !AddSearchAfter_aggs. split; reflexivity.
Qed.

(** X13: a limit that is not a number.  For a count on a field outside the
    date-field set, when [parseInt] finds no number in [limit] (it is
    absent, or its text does not start with a digit), [BuildQuery] throws
    nothing: the document carries the terms aggregation with the size NaN. *)
Theorem BuildQuery_limit_not_a_number (w : World) (c : jsstring) :
  params.count (w_params w) = Some c -> c <> [] -> ~ In c DATE_FIELDS ->
  parseInt (params.limit (w_params w)) = None ->
  given (params.search (w_params w)) = false ->
  exists d, fst (BuildQuery w) = Return d /\ aggs d = [terms_of_size c None].
Proof.
  intros Hc Hne Hnot Hlimit Hsearch.
  rewrite BuildQuery_unfold. cbv zeta. rewrite Hsearch. cbn [andb].
  eexists. split; [ reflexivity | ].
  rewrite AddSearchAfter_aggs, assembled_aggs, Hc. cbn [given str].
  replace (truthy c) with true by (symmetry; apply truthy_nonempty, Hne).
  destruct (includes DATE_FIELDS c) eqn:E; [ apply includes_In in E; contradiction | ].
  rewrite Hlimit. reflexivity.
Qed.

Lemma BuildQuery_limit_not_a_number_witness :
  (exists d, fst (BuildQuery (fresh (count_params (js "brand_name") JUndefined)))
             = Return d
             /\ aggs d = [terms_of_size (js "brand_name") None])
  /\ (exists d, fst (BuildQuery (fresh (count_params (js "brand_name")
                                          (JString (js "ten")))))
                = Return d
                /\ aggs d = [terms_of_size (js "brand_name") None]).
Proof.
  split.
  - apply (BuildQuery_limit_not_a_number
             (fresh (count_params (js "brand_name") JUndefined)) (js "brand_name"));
      try reflexivity; [ discriminate | ].
    intros Hin. apply includes_In in Hin. vm_compute in Hin. discriminate.
  - apply (BuildQuery_limit_not_a_number
             (fresh (count_params (js "brand_name") (JString (js "ten"))))
             (js "brand_name"));
      try reflexivity; [ discriminate | ].
    intros Hin. apply includes_In in Hin. vm_compute in Hin. discriminate.
Defined.

(** ** More on the validator *)

(** X14: the validator looks at each character on its own.  Two accepted
    strings put together are accepted, and every non-empty part of an
    accepted string is accepted. *)
Theorem SupportedQueryString_parts (a b : jsstring) :
  (SupportedQueryString a = true -> SupportedQueryString b = true ->
   SupportedQueryString (a ++ b) = true)
  /\ (SupportedQueryString (a ++ b) = true ->
      (a <> [] -> SupportedQueryString a = true)
      /\ (b <> [] -> SupportedQueryString b = true)).
Proof.
  rewrite !SupportedQueryString_forallb, forallb_app. split.
  - intros Ha Hb. apply andb_true_iff in Ha, Hb.
    destruct Ha as [Hta Ha], Hb as [_ Hb]. rewrite Ha, Hb.
    destruct a; [ discriminate | reflexivity ].
  - intros H. apply andb_true_iff in H. destruct H as [_ H].
    apply andb_true_iff in H. destruct H as [Ha Hb]. rewrite Ha, Hb.
    split; intros Hne; rewrite andb_true_r; apply truthy_nonempty, Hne.
Qed.

Lemma SupportedQueryString_parts_witness :
  SupportedQueryString (js "receivedate:" ++ js "[20200101 TO 20201231]") = true
  /\ SupportedQueryString (js "receivedate") = true.
Proof.
  split.
  - destruct (SupportedQueryString_parts (js "receivedate:")
                (js "[20200101 TO 20201231]")) as [H _].
    apply H; reflexivity.
  - destruct (SupportedQueryString_parts (js "receivedate") (js ":desc")) as [_ H].
    destruct (H eq_refl) as [Ha _]. apply Ha. discriminate.
Defined.

(** ** No clause is left *)

Lemma field_path_starts (t : jsstring) :
  match field_path t with Some _ => true | None => false end = starts_path t.
Proof.
  unfold field_path, starts_path. destruct t as [ | c1 r]; [ reflexivity | ].
  cbn [opt_quote]. destruct (N.eqb_spec c1 DQUOTE) as [-> | Hq].
  - rewrite quote_not_path_char. destruct r as [ | c2 r']; [ reflexivity | ].
    cbn [span]. destruct (is_path_char c2).
    + destruct (span is_path_char r') as [a b]. destruct (opt_quote b). reflexivity.
    + destruct (opt_quote (c2 :: r')). reflexivity.
  - cbn [span]. destruct (is_path_char c1).
    + destruct (span is_path_char r) as [a b]. destruct (opt_quote b). reflexivity.
    + destruct (opt_quote (c1 :: r)). reflexivity.
Qed.

Lemma clause_at_starts (s : jsstring) :
  clause_at s = match strip_prefix MISSING s with
                | Some t => starts_path t
                | None => false
                end.
Proof.
  unfold clause_at. destruct (strip_prefix MISSING s); [ | reflexivity ].
  apply field_path_starts.
Qed.

(** The rewriter, one step at a time. *)
Lemma HandleDeprecatedClauses_step (s : jsstring) :
  HandleDeprecatedClauses s =
  let copy := match s with
              | [] => []
              | c :: t => c :: HandleDeprecatedClauses t
              end in
  match strip_prefix MISSING s with
  | Some t =>
      match field_path t with
      | Some (fp, rest) => not_exists fp ++ HandleDeprecatedClauses rest
      | None => copy
      end
  | None => copy
  end.
Proof.
  cbv zeta.
  assert (Hcopy : clause_at s = false ->
                  HandleDeprecatedClauses s =
                  match s with
                  | [] => []
                  | c :: t => c :: HandleDeprecatedClauses t
                  end).
  { intros Hno. destruct s as [ | c t]; [ reflexivity | ].
    apply HandleDeprecatedClauses_copy. intros u Hu.
    unfold clause_at in Hno. rewrite Hu in Hno.
    destruct (field_path u); [ discriminate | reflexivity ]. }
  destruct (strip_prefix MISSING s) as [t | ] eqn:Hp.
  - destruct (field_path t) as [[fp rest] | ] eqn:Hfp.
    + apply strip_prefix_some in Hp. subst s.
      apply HandleDeprecatedClauses_clause, Hfp.
    + apply Hcopy. unfold clause_at. rewrite Hp, Hfp. reflexivity.
  - apply Hcopy. unfold clause_at. rewrite Hp. reflexivity.
Qed.

Lemma has_clause_free_fixed (s : jsstring) :
  has_clause s = false -> HandleDeprecatedClauses s = s.
Proof.
  induction s as [ | c t IH]; intros H; [ reflexivity | ].
  cbn [has_clause] in H. apply orb_false_iff in H. destruct H as [Hc Ht].
  rewrite HandleDeprecatedClauses_step. cbv zeta.
  unfold clause_at in Hc.
  destruct (strip_prefix MISSING (c :: t)) as [u | ].
  - destruct (field_path u) as [[fp rest] | ]; [ discriminate | ].
    f_equal. apply IH, Ht.
  - f_equal. apply IH, Ht.
Qed.

(** The rewritten text and the text agree up to the first clause, where the
    rewritten text has an opening parenthesis. *)
Lemma HandleDeprecatedClauses_diverges (t : jsstring) :
  exists pre x y,
    t = pre ++ x /\ HandleDeprecatedClauses t = pre ++ y
    /\ ((x = [] /\ y = []) \/ exists v, y = ch "(" :: v).
Proof.
  induction t as [ | c t IH].
  - exists [], [], []. repeat split. left. split; reflexivity.
  - rewrite HandleDeprecatedClauses_step. cbv zeta.
    assert (Hcopy : exists pre x y,
              c :: t = pre ++ x /\ c :: HandleDeprecatedClauses t = pre ++ y
              /\ ((x = [] /\ y = []) \/ exists v, y = ch "(" :: v)).
    { destruct IH as (pre & x & y & Ht & Hh & Hxy).
      exists (c :: pre), x, y. cbn [app]. rewrite <- Ht, <- Hh.
      repeat split. exact Hxy. }
    destruct (strip_prefix MISSING (c :: t)) as [u | ]; [ | exact Hcopy ].
    destruct (field_path u) as [[fp rest] | ]; [ | exact Hcopy ].
    exists [], (c :: t), (not_exists fp ++ HandleDeprecatedClauses rest).
    repeat split. right. eexists. reflexivity.
Qed.

Lemma app_eq_split {A} (a l p t : list A) :
  a ++ l = p ++ t ->
  (exists r, a = p ++ r /\ t = r ++ l) \/ (exists d r, p = a ++ d :: r /\ l = d :: r ++ t).
Proof.
  revert p. induction a as [ | x a IH]; intros p H.
  - destruct p as [ | d r].
    + left. exists []. split; [ reflexivity | exact (eq_sym H) ].
    + right. exists d, r. split; [ reflexivity | exact H ].
  - destruct p as [ | y p].
    + left. exists (x :: a). split; [ reflexivity | exact (eq_sym H) ].
    + cbn [app] in H. injection H as -> H. destruct (IH p H) as [[r [-> ->]] | (d & r & -> & ->)].
      * left. exists r. split; reflexivity.
      * right. exists d, r. split; reflexivity.
Qed.

(** A clause that is recognised in front of a parenthesis is recognised by
    what stands before the parenthesis. *)
Lemma clause_at_before_paren (a v z : jsstring) (c : N) :
  c = ch "(" \/ c = ch ")" ->
  clause_at (a ++ c :: v) = true -> clause_at (a ++ z) = true.
Proof.
  intros Hparen. rewrite !clause_at_starts.
  destruct (strip_prefix MISSING (a ++ c :: v)) as [t | ] eqn:Hp; [ | discriminate ].
  intros Hstart. apply strip_prefix_some in Hp.
  destruct (app_eq_split _ _ _ _ Hp) as [[r [-> ->]] | (d & r & Hm & Hl)].
  - rewrite <- app_assoc, strip_prefix_app.
    destruct r as [ | c1 [ | c2 r]].
    + exfalso. cbn [app starts_path] in Hstart.
      destruct Hparen as [-> | ->]; discriminate.
    + cbn [app starts_path] in *. destruct (is_path_char c1); [ reflexivity | ].
      exfalso. destruct (N.eqb c1 DQUOTE); [ | discriminate ].
      destruct Hparen as [-> | ->]; discriminate.
    + exact Hstart.
  - exfalso. injection Hl as <- _.
    assert (Hin : In c MISSING) by (rewrite Hm; apply in_or_app; right; left; reflexivity).
    rewrite MISSING_chars in Hin. cbn [In] in Hin.
    destruct Hparen as [-> | ->]; vm_compute in Hin; intuition discriminate.
Qed.

(** Copying a character in front of the rewritten rest starts no clause. *)
Lemma clause_at_copy (c : N) (t : jsstring) :
  clause_at (c :: t) = false -> clause_at (c :: HandleDeprecatedClauses t) = false.
Proof.
  intros Hno. destruct (HandleDeprecatedClauses_diverges t)
    as (pre & x & y & Ht & Hh & [[-> ->] | [v ->]]).
  - rewrite Hh, <- Ht. exact Hno.
  - rewrite Hh. apply not_true_is_false. intros Hyes.
    apply (clause_at_before_paren (c :: pre) v x) in Hyes; [ | left; reflexivity ].
    cbn [app] in Hyes. rewrite <- Ht, Hno in Hyes. discriminate.
Qed.

Lemma field_path_pathish (t fp rest : jsstring) :
  field_path t = Some (fp, rest) -> forallb pathish fp = true.
Proof.
  unfold field_path. intros H.
  assert (Hq : forall u, forallb pathish (fst (opt_quote u)) = true).
  { intros [ | d u]; [ reflexivity | ]. cbn [opt_quote].
    destruct (N.eqb d DQUOTE) eqn:E; [ | reflexivity ].
    cbn. unfold pathish. rewrite E, orb_true_r. reflexivity. }
  pose proof (Hq t) as H1. destruct (opt_quote t) as [q1 s1].
  pose proof (span_forallb is_path_char s1) as H2.
  destruct (span is_path_char s1) as [w s2].
  pose proof (Hq s2) as H3. destruct (opt_quote s2) as [q2 s3].
  destruct w as [ | d w]; [ discriminate | ]. injection H as <- <-.
  cbn [fst] in *.
  assert (Hw : forallb pathish (d :: w) = true).
  { apply forallb_forall. intros c Hc. rewrite forallb_forall in H2.
    unfold pathish. rewrite (H2 c Hc). reflexivity. }
  change (q1 ++ d :: w ++ q2) with (q1 ++ (d :: w) ++ q2).
  rewrite !forallb_app, H1, H3, Hw. reflexivity.
Qed.

(** No clause starts inside a field path that is followed by a closing
    parenthesis. *)
Lemma clause_at_in_path (l y : jsstring) :
  forallb pathish l = true -> clause_at (l ++ ch ")" :: y) = false.
Proof.
  intros Hl. apply not_true_is_false. intros Hyes.
  apply (clause_at_before_paren l y []) in Hyes; [ | right; reflexivity ].
  rewrite app_nil_r in Hyes. unfold clause_at in Hyes.
  destruct (strip_prefix MISSING l) as [u | ] eqn:Hp; [ | discriminate ].
  apply strip_prefix_some in Hp. subst l.
  rewrite forallb_app in Hl. apply andb_true_iff in Hl. destruct Hl as [Hm _].
  vm_compute in Hm. discriminate.
Qed.

Lemma has_clause_in_path (l y : jsstring) :
  forallb pathish l = true ->
  has_clause (l ++ ch ")" :: y) = has_clause (ch ")" :: y).
Proof.
  induction l as [ | c l IH]; intros Hl; [ reflexivity | ].
  cbn [app has_clause].
  change (c :: l ++ ch ")" :: y) with ((c :: l) ++ ch ")" :: y).
  rewrite (clause_at_in_path (c :: l) y Hl). cbn [orb].
  cbn [forallb] in Hl. apply andb_true_iff in Hl. apply IH, Hl.
Qed.

(** No clause starts inside the expression that replaces one. *)
Lemma has_clause_not_exists (fp y : jsstring) :
  forallb pathish fp = true ->
  has_clause (not_exists fp ++ y) = has_clause y.
Proof.
  intros Hfp. unfold not_exists. rewrite <- !app_assoc.
  transitivity (has_clause (fp ++ js "))" ++ y)); [ reflexivity | ].
  change (js "))" ++ y) with (ch ")" :: ch ")" :: y).
  rewrite (has_clause_in_path fp _ Hfp). reflexivity.
Qed.

Lemma HandleDeprecatedClauses_clause_free (s : jsstring) :
  has_clause (HandleDeprecatedClauses s) = false.
Proof.
  remember (length s) as n eqn:Hn. revert s Hn.
  induction n as [n IH] using lt_wf_ind. intros s Hn.
  rewrite HandleDeprecatedClauses_step. cbv zeta.
  assert (Hcopy : clause_at s = false ->
                  has_clause match s with
                             | [] => []
                             | c :: t => c :: HandleDeprecatedClauses t
                             end = false).
  { intros Hno. destruct s as [ | c t]; [ reflexivity | ].
    cbn [has_clause]. rewrite (clause_at_copy c t Hno). cbn [orb].
    apply (IH (length t)); [ subst n; simpl; lia | reflexivity ]. }
  unfold clause_at in Hcopy.
  destruct (strip_prefix MISSING s) as [t | ] eqn:Hp; [ | apply Hcopy; reflexivity ].
  destruct (field_path t) as [[fp rest] | ] eqn:Hfp; [ | apply Hcopy; reflexivity ].
  rewrite (has_clause_not_exists fp _ (field_path_pathish _ _ _ Hfp)).
  apply (IH (length rest)); [ | reflexivity ].
  apply strip_prefix_some in Hp. apply field_path_app in Hfp. subst n s t.
  rewrite !length_app. simpl. lia.
Qed.

(** X15: no clause is left, and rewriting again changes nothing.  The text
    that [HandleDeprecatedClauses] returns contains the legacy operator
    followed by a field path nowhere; a text that contains none is returned
    as it is; so the rewriter applied to its own result returns that
    result. *)
Theorem HandleDeprecatedClauses_idempotent (s : jsstring) :
  has_clause (HandleDeprecatedClauses s) = false
  /\ (has_clause s = false -> HandleDeprecatedClauses s = s)
  /\ HandleDeprecatedClauses (HandleDeprecatedClauses s) = HandleDeprecatedClauses s.
Proof.
  split; [ apply HandleDeprecatedClauses_clause_free | ].
  split; [ apply has_clause_free_fixed | ].
  apply has_clause_free_fixed, HandleDeprecatedClauses_clause_free.
Qed.

Lemma HandleDeprecatedClauses_idempotent_witness :
  HandleDeprecatedClauses (js "_missing_: foo AND _missing_-1") =
  js "_missing_: foo AND _missing_-1".
Proof.
  destruct (HandleDeprecatedClauses_idempotent (js "_missing_: foo AND _missing_-1"))
    as (_ & Hfixed & _).
  apply Hfixed. reflexivity.
Defined.

(** ** The builders together *)

(** X16: the limit is read for a terms aggregation only.  When [count] is
    absent or names a date field, the value of [limit], whatever it is, has
    no part in what [BuildQuery] returns or throws. *)
Theorem BuildQuery_limit_unused (w : World) (l : JsValue) :
  given (params.count (w_params w)) = false
  \/ In (str (params.count (w_params w))) DATE_FIELDS ->
  fst (BuildQuery (with_params (with_limit l (w_params w)) w)) = fst (BuildQuery w).
Proof.
  intros H. rewrite !BuildQuery_unfold. cbv zeta.
  cbn [with_params w_params with_limit params.search].
  destruct (given (params.search (w_params w)) && negb _); [ reflexivity | ].
  f_equal. unfold AddSearchAfter, assembled.
  cbn [with_limit params.search params.count params.limit params.search_after].
  destruct H as [-> | Hin]; [ reflexivity | ].
  apply includes_In in Hin. rewrite Hin. reflexivity.
Qed.

Lemma BuildQuery_limit_unused_witness :
  fst (BuildQuery (fresh (count_params (js "receivedate") (JString (js "many")))))
  = fst (BuildQuery (fresh (count_params (js "receivedate") (JNumber 5)))).
Proof.
  apply (BuildQuery_limit_unused
           (fresh (count_params (js "receivedate") (JNumber 5))) (JString (js "many"))).
  right. apply includes_In. reflexivity.
Defined.

(** X17: [BuildSort] does not disturb [BuildQuery].  On the world that a
    call of [BuildSort] leaves, whether it returned or threw, [BuildQuery]
    returns or throws what it would have before the call. *)
Theorem BuildQuery_after_BuildSort (client : Client) (index : option jsstring)
    (w : World) :
  fst (BuildQuery (snd (BuildSort client index w))) = fst (BuildQuery w).
Proof.
  rewrite !BuildQuery_unfold. cbv zeta. rewrite BuildSort_params.
  destruct (given (params.sort (w_params w))); reflexivity.
Qed.

(** ** The size of the cursor *)

Lemma insert_index_length {V} (n : N) (kv : jsstring * V) (l : list (N * (jsstring * V))) :
  length (insert_index n kv l) = S (length l).
Proof.
  induction l as [ | [m x] l IH]; [ reflexivity | ]. cbn [insert_index].
  destruct (n <? m)%N; [ reflexivity | ]. cbn [length]. rewrite IH. reflexivity.
Qed.

Lemma own_properties_length {V} (obj : list (jsstring * V)) :
  length (own_properties obj) = length obj.
Proof.
  unfold own_properties. rewrite length_app, length_map.
  assert (Hfold : forall l acc,
    length (fold_left (fun acc kv => match array_index (fst kv) with
                                     | Some n => insert_index n kv acc
                                     | None => acc
                                     end) l acc) =
    length acc + length (List.filter (@is_index V) l)).
  { induction l as [ | kv l IH]; intros acc; [ cbn; lia | ].
    cbn [fold_left List.filter]. unfold is_index at 1.
    destruct (array_index (fst kv)) as [n | ].
    - rewrite IH, insert_index_length. cbn [length]. lia.
    - apply IH. }
  rewrite Hfold. cbn [length].
  induction obj as [ | kv obj IH]; [ reflexivity | ].
  cbn [List.filter]. unfold is_index at 1.
  destruct (array_index (fst kv)); cbn [length]; lia.
Qed.

Lemma obj_add_length (obj : list (jsstring * QsValue)) (k v : jsstring) :
  length (obj_add obj k v) <= S (length obj).
Proof.
  induction obj as [ | [k' v'] obj IH]; [ cbn; lia | ].
  cbn [obj_add]. destruct (str_eqb k' k); cbn [length]; lia.
Qed.

Lemma parseValues_length (d : N) (s : jsstring) :
  length (parseValues d s) <= Nat.min 1000 (length (split d s)).
Proof.
  unfold parseValues. rewrite <- length_firstn.
  generalize (firstn 1000 (split d s)). intros parts.
  assert (H : forall acc,
    length (fold_left (fun obj part => let (k, v) := parse_part part in obj_add obj k v)
                      parts acc) <= length acc + length parts).
  { induction parts as [ | part parts IH]; intros acc; [ cbn; lia | ].
    cbn [fold_left length]. destruct (parse_part part) as [k v].
    specialize (IH (obj_add acc k v)). pose proof (obj_add_length acc k v). lia. }
  apply (H []).
Qed.

Lemma filter_length_le {A} (f : A -> bool) (l : list A) :
  length (List.filter f l) <= length l.
Proof.
  induction l as [ | x l IH]; [ reflexivity | ]. cbn [List.filter].
  destruct (f x); cbn [length]; lia.
Qed.

(** X18: the cursor of a document is bounded.  Within what the model of the
    parser covers, [search_after] has no more values than the cursor string
    has parts between semicolons, and never more than 1000. *)
Theorem BuildQuery_cursor_bounded (w : World) (d : QueryDocument)
    (cursor : list QsValue) :
  fst (BuildQuery w) = Return d ->
  qs_plain (str (params.search_after (w_params w))) = true ->
  search_after d = Some cursor ->
  length cursor <= 1000
  /\ length cursor <= length (split (ch ";") (str (params.search_after (w_params w)))).
Proof.
  intros Hd _ Hc. rewrite (BuildQuery_cursor w d Hd) in Hc.
  destruct (given (params.search_after (w_params w))); [ | discriminate ].
  injection Hc as <-. unfold values, qs_parse.
  rewrite length_map, own_properties_length.
  pose proof (filter_length_le
                (fun kv : list N * QsValue =>
                   truthy (fst kv) && negb (includes OBJECT_PROTOTYPE (fst kv)))
                (own_properties (parseValues (ch ";")
                                   (str (params.search_after (w_params w)))))) as Hf.
  rewrite own_properties_length in Hf.
  pose proof (parseValues_length (ch ";") (str (params.search_after (w_params w)))).
  lia.
Qed.

Lemma BuildQuery_cursor_bounded_witness :
  length [QString (js "1"); QString (js "2")] <= 1000
  /\ length [QString (js "1"); QString (js "2")] <= length (split (ch ";") (js "a=1;b=2")).
Proof.
  apply (BuildQuery_cursor_bounded (fresh (cursor_params (js "a=1;b=2"))) _
           [QString (js "1"); QString (js "2")] eq_refl eq_refl eq_refl).
Defined.

(** ** More ways through the sort builder *)

Lemma find_found {A} (g : A -> bool) (l : list A) (x : A) :
  In x l -> g x = true -> List.find g l <> None.
Proof.
  intros Hin Hg Hnone. pose proof (List.find_none g l Hnone x Hin) as H.
  rewrite Hg in H. discriminate.
Qed.

(** X19: the date-field set is matched by suffix.  A supported sort
    expression without [exact] whose field name ends in a name of the
    date-field set, a nested path such as [patient.drug.drugstartdate]
    included, is accepted without a metadata lookup: the result is the
    trimmed expression with [,_id], and nothing but [params.sort] changes. *)
Theorem BuildSort_date_suffix (client : Client) (index : option jsstring)
    (w : World) (s f : jsstring) :
  In f DATE_FIELDS ->
  params.sort (w_params w) = Some s ->
  SupportedQueryString (trim s) = true ->
  indexOf (trim s) (js "exact") = None ->
  endsWith (sort_field (trim s)) f = true ->
  BuildSort client index w =
  (Return (trim s ++ js ",_id"),
   with_params (params.set_sort (trim s) (w_params w)) w).
Proof.
  intros Hf Hs Hq Hex Hend.
  assert (Hgiven : given (params.sort (w_params w)) = true).
  { rewrite Hs. cbn [given]. apply SupportedQueryString_truthy in Hq.
    destruct s; [ discriminate | reflexivity ]. }
  rewrite BuildSort_outcome, Hgiven, Hs. cbn [str]. unfold sort_outcome.
  rewrite Hq, Hex. cbn [negb].
  pose proof (find_found (fun g => endsWith (sort_field (trim s)) g) DATE_FIELDS f
                Hf Hend) as Hfind.
  destruct (List.find _ DATE_FIELDS); [ reflexivity | congruence ].
Qed.

Lemma BuildSort_date_suffix_witness :
  BuildSort (always LookupThrows) None
    (fresh (sort_params (js "patient.drug.drugstartdate:desc")))
  = (Return (js "patient.drug.drugstartdate:desc,_id"),
     fresh (sort_params (js "patient.drug.drugstartdate:desc"))).
Proof.
  apply (BuildSort_date_suffix (always LookupThrows) None
           (fresh (sort_params (js "patient.drug.drugstartdate:desc")))
           (js "patient.drug.drugstartdate:desc") (js "drugstartdate"));
    try reflexivity.
  apply includes_In. reflexivity.
Defined.

(** X20: acceptance through the metadata.  For a supported sort expression
    that is not accepted by its name, on an index and a field that are not
    cached, when the cluster reports a mapping of a sortable type,
    [BuildSort] returns the trimmed expression with [,_id], has sent the one
    request for the field, and has cached the pair as sortable. *)
Theorem BuildSort_confirmed_by_metadata (client : Client) (i : jsstring)
    (w : World) (s type : jsstring) (ms : list Mapping) :
  params.sort (w_params w) = Some s ->
  SupportedQueryString (trim s) = true ->
  indexOf (trim s) (js "exact") = None ->
  List.find (fun f => endsWith (sort_field (trim s)) f) DATE_FIELDS = None ->
  truthy i = true -> truthy (sort_field (trim s)) = true ->
  fieldMappingCache w !! cache_key i (sort_field (trim s)) = None ->
  client (length (w_requests w)) i (sort_field (trim s)) =
    LookupMappings (MappingObject (Some type) :: ms) ->
  In type SORTABLE_FIELD_TYPES ->
  let result := BuildSort client (Some i) w in
  fst result = Return (trim s ++ js ",_id")
  /\ w_requests (snd result) = w_requests w ++ [(i, sort_field (trim s))]
  /\ fieldMappingCache (snd result) !! cache_key i (sort_field (trim s)) = Some true.
Proof.
  intros Hs Hq Hex Hdate Hi Hf Hc Hlookup Htype result. subst result.
  assert (Hgiven : given (params.sort (w_params w)) = true).
  { rewrite Hs. cbn [given]. apply SupportedQueryString_truthy in Hq.
    destruct s; [ discriminate | reflexivity ]. }
  rewrite BuildSort_outcome, Hgiven, Hs. cbn [str]. unfold sort_outcome.
  rewrite Hq, Hex, Hdate. cbn [negb]. cbv zeta.
  rewrite (isSortableField_uncached client (sort_field (trim s)) i
             (with_params (params.set_sort (trim s) (w_params w)) w) Hi Hf Hc).
  cbv zeta. cbn [with_params w_requests]. rewrite Hlookup.
  cbn [sortable_type lookup_throws fst snd].
  apply includes_In in Htype. rewrite Htype.
  cbn [fst snd w_requests fieldMappingCache]. rewrite lookup_insert_eq.
  repeat split; reflexivity.
Qed.

Lemma BuildSort_confirmed_by_metadata_witness :
  fst (BuildSort (always (reports (js "keyword"))) (Some (js "drug"))
         (fresh (sort_params (js "openfda.brand_name:asc"))))
  = Return (js "openfda.brand_name:asc,_id")
  /\ w_requests (snd (BuildSort (always (reports (js "keyword"))) (Some (js "drug"))
                        (fresh (sort_params (js "openfda.brand_name:asc")))))
     = [(js "drug", js "openfda.brand_name")].
Proof.
  destruct (BuildSort_confirmed_by_metadata (always (reports (js "keyword")))
              (js "drug") (fresh (sort_params (js "openfda.brand_name:asc")))
              (js "openfda.brand_name:asc") (js "keyword") [])
    as (Hr & Hreq & _); try reflexivity.
  - apply includes_In. reflexivity.
  - split; [ exact Hr | exact Hreq ].
Defined.

Lemma sort_field_app (f d : jsstring) :
  ~ In (ch ":") f -> sort_field (f ++ ch ":" :: d) = f.
Proof.
  unfold sort_field. intros Hf.
  assert (H : split (ch ":") (f ++ ch ":" :: d) = f :: split (ch ":") d).
  { induction f as [ | c f IH].
    - cbn [app split]. rewrite N.eqb_refl. reflexivity.
    - cbn [app split]. destruct (N.eqb_spec c (ch ":")) as [-> | Hc].
      + exfalso. apply Hf. left. reflexivity.
      + rewrite IH; [ reflexivity | ]. intros Hin. apply Hf. right. exact Hin. }
  rewrite H. reflexivity.
Qed.

Lemma isSortableField_with_params (client : Client) (field : jsstring)
    (index : option jsstring) (p : params.t) (w : World) :
  fst (isSortableField client field index (with_params p w)) =
  fst (isSortableField client field index w).
Proof.
  unfold isSortableField. destruct (given index && truthy field); [ | reflexivity ].
  unfold_M. cbn [with_params fieldMappingCache w_requests].
  destruct (negb _); [ | reflexivity ].
  destruct (client _ _ _) as [ | [ | [ | ty] ms]];
    try destruct (given ty && includes SORTABLE_FIELD_TYPES (str ty));
    reflexivity.
Qed.

(** X21: the direction is not checked.  Two sort expressions on the same
    field that differ in what follows the first colon, both supported, both
    trimmed and both without [exact], are either both accepted or both
    rejected with the error that names the field. *)
Theorem BuildSort_direction_unchecked (client : Client) (index : option jsstring)
    (w : World) (f d1 d2 : jsstring) :
  ~ In (ch ":") f ->
  (forall d, d = d1 \/ d = d2 ->
     trim (f ++ ch ":" :: d) = f ++ ch ":" :: d
     /\ SupportedQueryString (f ++ ch ":" :: d) = true
     /\ indexOf (f ++ ch ":" :: d) (js "exact") = None) ->
  let run d :=
    fst (BuildSort client index
           (with_params (with_sort (Some (f ++ ch ":" :: d)) (w_params w)) w)) in
  (run d1 = Return (f ++ ch ":" :: d1 ++ js ",_id")
   /\ run d2 = Return (f ++ ch ":" :: d2 ++ js ",_id"))
  \/ (run d1 = Throw (sort_error f) /\ run d2 = Throw (sort_error f)).
Proof.
  intros Hf Hd run.
  assert (Hrun : forall d, d = d1 \/ d = d2 ->
    run d =
    match List.find (fun g => endsWith f g) DATE_FIELDS with
    | Some _ => Return (f ++ ch ":" :: d ++ js ",_id")
    | None =>
        match fst (isSortableField client f index w) with
        | Return true => Return (f ++ ch ":" :: d ++ js ",_id")
        | Return false => Throw (sort_error f)
        | Throw e => Throw e
        end
    end).
  { intros d Hin. destruct (Hd d Hin) as (Ht & Hq & Hex). unfold run.
    rewrite BuildSort_outcome. cbn [with_params w_params with_sort params.sort given str].
    replace (truthy (f ++ ch ":" :: d)) with true
      by (symmetry; apply truthy_app_r; reflexivity).
    rewrite Ht. unfold sort_outcome. rewrite Hq, Hex, (sort_field_app f d Hf).
    cbn [negb]. rewrite <- app_assoc. cbn [app].
    destruct (List.find _ DATE_FIELDS); [ reflexivity | ]. cbv zeta.
    match goal with
    | |- context [isSortableField client f index (with_params ?p ?w0)] =>
        pose proof (isSortableField_with_params client f index p w0) as Hp;
        pose proof (isSortableField_with_params client f index
                      (with_sort (Some (f ++ ch ":" :: d)) (w_params w)) w) as Hp'
    end.
    rewrite Hp' in Hp.
    destruct (isSortableField client f index (with_params _ (with_params _ w)))
      as [[[ | ] | e] w2]; cbn [fst snd] in *; rewrite <- Hp; reflexivity. }
  rewrite (Hrun d1 (or_introl eq_refl)), (Hrun d2 (or_intror eq_refl)).
  destruct (List.find _ DATE_FIELDS); [ left; split; reflexivity | ].
  destruct (isSortableField_returns client f index w) as [b Hb]. rewrite Hb.
  destruct b; [ left | right ]; split; reflexivity.
Qed.

Lemma BuildSort_direction_unchecked_witness :
  fst (BuildSort (always (reports (js "keyword"))) (Some (js "drug"))
         (fresh (sort_params (js "brand_name:sideways"))))
  = Return (js "brand_name:sideways,_id")
  \/ fst (BuildSort (always (reports (js "keyword"))) (Some (js "drug"))
            (fresh (sort_params (js "brand_name:sideways"))))
     = Throw (sort_error (js "brand_name")).
Proof.
  destruct (BuildSort_direction_unchecked (always (reports (js "keyword")))
              (Some (js "drug")) (fresh no_params) (js "brand_name")
              (js "sideways") (js "asc")) as [[H _] | [H _]].
  - vm_compute. intuition discriminate.
  - intros d [-> | ->]; repeat split; reflexivity.
  - left. exact H.
  - right. exact H.
Defined.
